(** * A drag-and-drop project board: the project store and its views

    Shallow embedding of the TypeScript program: the observable project
    store ([State], [ProjectState]), the field validation of the input
    form ([validate], [ProjectInput.gatherUserInput]) and the drop
    targets ([ProjectList]).

    JavaScript objects have identity and are shared by reference, so the
    embedding keeps an explicit heap: [Project] objects and arrays of
    [Project] references live at addresses, [slice] allocates a new
    array, and a listener works on the array it was handed and on the
    objects that array points to. *)

From Stdlib Require Import ZArith Bool List String Ascii Lia.
From Stdlib Require Import Floats.SpecFloat.
From stdpp Require Import base list strings.

(** ** JavaScript numbers

    A [number] is an IEEE 754 binary64 value. *)

Definition number : Type := spec_float.

Definition number_of_Z (z : Z) : number := binary_normalize 53 1024 z 0 false.

Definition number_of_nat (n : nat) : number := number_of_Z (Z.of_nat n).

(** [a >= b] and [a <= b] on numbers; both are [false] when an operand
    is NaN. *)
Definition num_ge (a b : number) : bool := SFleb b a.
Definition num_le (a b : number) : bool := SFleb a b.

(** ** Projects *)

(** [enum ProjectStatus { Active, Finished }] *)
Inductive ProjectStatus : Type := Active | Finished.

Global Instance ProjectStatus_eq_dec : EqDecision ProjectStatus.
Proof. solve_decision. Defined.

(** [class Project] *)
Record Project : Type := mkProject {
  id : string;
  title : string;
  description : string;
  numPeople : number;
  status : ProjectStatus
}.

(** [project.status = s] *)
Definition set_status (s : ProjectStatus) (p : Project) : Project :=
  {| id := id p; title := title p; description := description p;
     numPeople := numPeople p; status := s |}.

(** ** Heap, listeners and the store *)

(** Addresses of heap objects. *)
Abbreviation loc := nat (only parsing).

(** What a listener may do with the array [items] it is called with:
    change the array itself ([items.push(..)], [items.pop()],
    [items.length = 0], [items.reverse()], ...), change the object at
    some index ([items[i].status = ..]; a [TypeError] when [items[i]]
    is [undefined]), or throw.  A listener reaches the store only
    through its argument: [projects] and [listeners] are not visible to
    it, and it does not call the store's methods while it runs. *)
Inductive SnapOp : Type :=
| ArrUpdate (f : list loc -> list loc)
| ItemUpdate (i : nat) (f : Project -> Project)
| Throw.

(** [type Listener<T> = (items: T[]) => void].  [lname] identifies the
    function in the invocation trace; [body] gives the statements it
    runs, which may depend on the projects it is shown. *)
Record Listener : Type := mkListener {
  lname : nat;
  body : list Project -> list SnapOp
}.

(** One invocation [listenerFn(items)]: which function, the address of
    the array passed, and the references the array held at the call. *)
Record Event : Type := mkEvent {
  ev_listener : nat;
  ev_array : loc;
  ev_items : list loc
}.

(** The program state seen from the store: the heap ([objs], [arrs]),
    the fields of the [ProjectState] instance ([listeners], and
    [projects], the address of its private array) and the listener
    invocations made so far. *)
Record World : Type := mkWorld {
  objs : list Project;
  arrs : list (list loc);
  listeners : list Listener;
  projects : loc;
  trace : list Event
}.

(** A call either returns or is left by an exception; the heap keeps
    the writes made before the throw. *)
Inductive Outcome : Type :=
| Returned (w : World)
| Thrown (w : World).

Definition world_of (o : Outcome) : World :=
  match o with Returned w => w | Thrown w => w end.

Definition bind (o : Outcome) (k : World -> Outcome) : Outcome :=
  match o with
  | Returned w => k w
  | Thrown w => Thrown w
  end.

Notation "o >>= k" := (bind o k) (at level 50, left associativity).

(** *** Heap access *)

Definition with_objs (os : list Project) (w : World) : World :=
  {| objs := os; arrs := arrs w; listeners := listeners w;
     projects := projects w; trace := trace w |}.

Definition with_arrs (ars : list (list loc)) (w : World) : World :=
  {| objs := objs w; arrs := ars; listeners := listeners w;
     projects := projects w; trace := trace w |}.

Definition with_listeners (ls : list Listener) (w : World) : World :=
  {| objs := objs w; arrs := arrs w; listeners := ls;
     projects := projects w; trace := trace w |}.

Definition with_trace (t : list Event) (w : World) : World :=
  {| objs := objs w; arrs := arrs w; listeners := listeners w;
     projects := projects w; trace := t |}.

(** The references held by the array at [a]. *)
Definition contents (a : loc) (w : World) : list loc :=
  default [] (arrs w !! a).

(** The objects a list of references points to. *)
Definition deref (rs : list loc) (w : World) : list Project :=
  omap (fun r => objs w !! r) rs.

(** The store's projects, in order, as values. *)
Definition store_items (w : World) : list Project :=
  deref (contents (projects w) w) w.

(** [new Project(..)]: the new object's address and the extended heap. *)
Definition alloc_project (p : Project) (w : World) : loc * World :=
  (length (objs w), with_objs (objs w ++ [p]) w).

(** [arr.push(r)] on the array at [a]. *)
Definition array_push (a : loc) (r : loc) (w : World) : World :=
  with_arrs (alter (fun l => l ++ [r]) a (arrs w)) w.

(** [arr.slice()]: a new array holding the same references. *)
Definition slice (a : loc) (w : World) : loc * World :=
  (length (arrs w), with_arrs (arrs w ++ [contents a w]) w).

(** *** Running a listener *)

Definition exec_op (a : loc) (op : SnapOp) (w : World) : Outcome :=
  match op with
  | ArrUpdate f => Returned (with_arrs (alter f a (arrs w)) w)
  | ItemUpdate i f =>
      match contents a w !! i with
      | Some r =>
          match objs w !! r with
          | Some _ => Returned (with_objs (alter f r (objs w)) w)
          | None => Thrown w
          end
      | None => Thrown w
      end
  | Throw => Thrown w
  end.

Fixpoint exec_ops (a : loc) (ops : list SnapOp) (w : World) : Outcome :=
  match ops with
  | [] => Returned w
  | op :: ops' => exec_op a op w >>= exec_ops a ops'
  end.

(** [listenerFn(items)] with [items] the array at [a]. *)
Definition call_listener (l : Listener) (a : loc) (w : World) : Outcome :=
  let items := contents a w in
  let w1 := with_trace (trace w ++ [mkEvent (lname l) a items]) w in
  exec_ops a (body l (deref items w1)) w1.

(** *** [class State<T>] and [class ProjectState] *)

(** [addListener(listenerFn) { this.listeners.push(listenerFn); }] *)
Definition addListener (l : Listener) (w : World) : World :=
  with_listeners (listeners w ++ [l]) w.

(** The loop of [updateListeners]:
    [for (const listenerFn of this.listeners)
       listenerFn(this.projects.slice());] *)
Fixpoint notify (ls : list Listener) (w : World) : Outcome :=
  match ls with
  | [] => Returned w
  | l :: ls' =>
      let '(a, w1) := slice (projects w) w in
      call_listener l a w1 >>= notify ls'
  end.

Definition updateListeners (w : World) : Outcome :=
  notify (listeners w) w.

(** [addProject(title, description, numPeople)].  [rnd] is the text of
    the number that [Math.random()] returns in this call, that is the
    value of [Math.random().toString()]. *)
Definition addProject (rnd : string) (t d : string) (n : number)
    (w : World) : Outcome :=
  let '(newProject, w1) := alloc_project (mkProject rnd t d n Active) w in
  updateListeners (array_push (projects w1) newProject w1).

(** [this.projects.find(prj => prj.id === projectId)] *)
Definition has_id (projectId : string) (w : World) (r : loc) : bool :=
  match objs w !! r with
  | Some prj => String.eqb (id prj) projectId
  | None => false
  end.

Definition find_project (projectId : string) (w : World) : option loc :=
  find (has_id projectId w) (contents (projects w) w).

(** [moveProject(projectId, newStatus)] *)
Definition moveProject (projectId : string) (newStatus : ProjectStatus)
    (w : World) : Outcome :=
  match find_project projectId w with
  | Some r =>
      match objs w !! r with
      | Some project =>
          if decide (status project <> newStatus)
          then updateListeners
                 (with_objs (alter (set_status newStatus) r (objs w)) w)
          else Returned w
      | None => Returned w
      end
  | None => Returned w
  end.

(** The state right after [new ProjectState()]: no listener, an empty
    [projects] array. *)
Definition new_ProjectState : World :=
  {| objs := []; arrs := [[]]; listeners := []; projects := 0; trace := [] |}.

(** The listener functions that [ProjectList.configure] registers only
    read the array they get ([projects.filter(..)]); the projects kept
    for a list of type ['active'] or ['finished'] are: *)
Inductive ListType : Type := active | finished.

Definition relevantProjects (type : ListType) (projects : list Project)
  : list Project :=
  List.filter (fun prj =>
                 match type with
                 | active => bool_decide (status prj = Active)
                 | finished => bool_decide (status prj = Finished)
                 end) projects.

Definition ProjectList_listener (name : nat) : Listener :=
  {| lname := name; body := fun _ => [] |}.

(** *** Sequences of store operations *)

Inductive Op : Type :=
| OpAddListener (l : Listener)
| OpAddProject (rnd t d : string) (n : number)
| OpMoveProject (projectId : string) (newStatus : ProjectStatus).

Definition step (op : Op) (w : World) : Outcome :=
  match op with
  | OpAddListener l => Returned (addListener l w)
  | OpAddProject rnd t d n => addProject rnd t d n w
  | OpMoveProject i s => moveProject i s w
  end.

(** Each operation is started by its own event handler, so an exception
    ends that operation only. *)
Fixpoint run (ops : list Op) (w : World) : World :=
  match ops with
  | [] => w
  | op :: ops' => run ops' (world_of (step op w))
  end.

(** *** Well-formed states *)

(** The store's array exists and every reference in it points to a
    project. *)
Definition wf (w : World) : Prop :=
  projects w < length (arrs w) /\
  Forall (fun r => r < length (objs w)) (contents (projects w) w).

(** The identifiers of the store's projects, in order. *)
Definition ids (w : World) : list string := map id (store_items w).

(** The number of projects in the store ([this.projects.length]). *)
Definition count (w : World) : nat := length (contents (projects w) w).

(** The identifiers drawn by the [addProject] calls of a sequence. *)
Definition draws (ops : list Op) : list string :=
  flat_map (fun op =>
              match op with
              | OpAddProject rnd _ _ _ => [rnd]
              | _ => []
              end) ops.

(** The events of one round of [updateListeners] that runs to the end:
    listener [k] gets a new array at [a0 + k] holding [items]. *)
Fixpoint notified (ls : list Listener) (a0 : loc) (items : list loc)
  : list Event :=
  match ls with
  | [] => []
  | l :: ls' => mkEvent (lname l) a0 items :: notified ls' (S a0) items
  end.

(** What running a listener on the array at [a] leaves alone: the
    fields of the store, the trace, the sizes of the heap and every
    array other than [a]. *)
Definition kept_but (a : loc) (w w' : World) : Prop :=
  listeners w' = listeners w /\
  projects w' = projects w /\
  trace w' = trace w /\
  length (arrs w') = length (arrs w) /\
  length (objs w') = length (objs w) /\
  forall b, b <> a -> arrs w' !! b = arrs w !! b.

(** What a round of notifications leaves alone: the fields of the
    store, the number of projects in the heap and every array that
    existed before the round. *)
Definition round_kept (w w' : World) : Prop :=
  listeners w' = listeners w /\
  projects w' = projects w /\
  length (objs w') = length (objs w) /\
  length (arrs w) <= length (arrs w') /\
  forall b, b < length (arrs w) -> arrs w' !! b = arrs w !! b.

(** A listener that only changes the array it is given. *)
Definition op_is_array (op : SnapOp) : bool :=
  match op with ArrUpdate _ => true | _ => false end.

Definition array_only (l : Listener) : Prop :=
  forall snap, forallb op_is_array (body l snap) = true.

(** Every listener registered by the sequence only changes its own
    array. *)
Definition registers_array_only (ops : list Op) : Prop :=
  Forall (fun op =>
            match op with
            | OpAddListener l => array_only l
            | _ => True
            end) ops.

(** ** The earlier variant of the store (src/app.ts)

    There [addProject] takes the identifier from
    [Math.random.toString()], the text of the function [Math.random]
    itself ([Math.random] is not called), and runs the listener loop
    in place. *)
Module AppTs.

Definition Math_random_toString : string :=
  "function random() { [native code] }".

Definition addProject (t d : string) (n : number) (w : World) : Outcome :=
  let '(newProject, w1) :=
    alloc_project (mkProject Math_random_toString t d n Active) w in
  let w2 := array_push (projects w1) newProject w1 in
  notify (listeners w2) w2.

End AppTs.

(** ** The single instance of [ProjectState] *)
Module Singleton.

(** A constructed [ProjectState] object: its two fields right after
    [new ProjectState()]. *)
Record ProjectStateObj : Type := mkProjectStateObj {
  this_listeners : list Listener;
  this_projects : list loc
}.

(** [instance] is the static field [ProjectState.instance]
    ([None] while it is [undefined]); [constructed] holds every
    object made by the constructor, at its address. *)
Record Runtime : Type := mkRuntime {
  instance : option loc;
  constructed : list ProjectStateObj
}.

(** The program start: nothing constructed, [instance] unset. *)
Definition start : Runtime := {| instance := None; constructed := [] |}.

(** [new ProjectState()] *)
Definition construct (rt : Runtime) : loc * Runtime :=
  (length (constructed rt),
   {| instance := instance rt;
      constructed := constructed rt ++ [mkProjectStateObj [] []] |}).

(** [static getInstance()] *)
Definition getInstance (rt : Runtime) : loc * Runtime :=
  match instance rt with
  | Some i => (i, rt)
  | None =>
      let '(i, rt1) := construct rt in
      (i, {| instance := Some i; constructed := constructed rt1 |})
  end.

(** [n] calls in a row: the instances returned, oldest first. *)
Fixpoint getInstance_n (n : nat) (rt : Runtime) : list loc * Runtime :=
  match n with
  | O => ([], rt)
  | S n' =>
      let '(i, rt1) := getInstance rt in
      let '(rest, rt2) := getInstance_n n' rt1 in
      (i :: rest, rt2)
  end.

End Singleton.

(** ** Validation of the form fields *)

(** [value: string | number] *)
Inductive Value : Type :=
| VString (s : string)
| VNumber (n : number).

(** [interface Validatable]; an absent optional field is [None]. *)
Record Validatable : Type := mkValidatable {
  value : Value;
  required : bool;
  minLength : option number;
  maxLength : option number;
  min : option number;
  max : option number
}.

(** White space removed by [String.prototype.trim], for strings whose
    code units are below 256: TAB, LF, VT, FF, CR, SPACE and NBSP. *)
Definition is_white_space (c : ascii) : bool :=
  let n := nat_of_ascii c in
  (Nat.leb 9 n && Nat.leb n 13) || Nat.eqb n 32 || Nat.eqb n 160.

Fixpoint trim_start (s : string) : string :=
  match s with
  | EmptyString => EmptyString
  | String c s' => if is_white_space c then trim_start s' else s
  end.

(** [trim_end s] drops the white space at the end of [s]. *)
Fixpoint trim_end (s : string) : string :=
  match s with
  | EmptyString => EmptyString
  | String c s' =>
      match trim_end s' with
      | EmptyString => if is_white_space c then EmptyString
                       else String c EmptyString
      | t => String c t
      end
  end.

Definition trim (s : string) : string := trim_end (trim_start s).

Section Form.

(** [Number.prototype.toString] and the conversion of a string to a
    number by unary [+] are the platform's. *)
Variable Number_toString : number -> string.
Variable ToNumber : string -> number.

Definition value_toString (v : Value) : string :=
  match v with
  | VString s => s
  | VNumber n => Number_toString n
  end.

(** [function validate(validatableInput: Validatable)] *)
Definition validate (validatableInput : Validatable) : bool :=
  let isValid := true in
  let isValid :=
    if required validatableInput
    then isValid &&
         negb (Nat.eqb
                 (String.length
                    (trim (value_toString (value validatableInput)))) 0)
    else isValid in
  let isValid :=
    match minLength validatableInput, value validatableInput with
    | Some m, VString s =>
        isValid && num_ge (number_of_nat (String.length s)) m
    | _, _ => isValid
    end in
  let isValid :=
    match maxLength validatableInput, value validatableInput with
    | Some m, VString s =>
        isValid && num_le (number_of_nat (String.length s)) m
    | _, _ => isValid
    end in
  let isValid :=
    match min validatableInput, value validatableInput with
    | Some m, VNumber n => isValid && num_ge n m
    | _, _ => isValid
    end in
  let isValid :=
    match max validatableInput, value validatableInput with
    | Some m, VNumber n => isValid && num_le n m
    | _, _ => isValid
    end in
  isValid.

(** The [value] of the three input elements of the form. *)
Record InputForm : Type := mkInputForm {
  titleInputElement : string;
  descriptionInputElement : string;
  peopleInputElement : string
}.

Definition titleValidatable (f : InputForm) : Validatable :=
  {| value := VString (titleInputElement f); required := true;
     minLength := None; maxLength := None; min := None; max := None |}.

Definition descriptionValidatable (f : InputForm) : Validatable :=
  {| value := VString (descriptionInputElement f); required := true;
     minLength := Some (number_of_Z 5);
     maxLength := Some (number_of_Z 500);
     min := None; max := None |}.

(** [value: enteredPeople] is the text of the input element. *)
Definition peopleValidatable (f : InputForm) : Validatable :=
  {| value := VString (peopleInputElement f); required := true;
     minLength := None; maxLength := None;
     min := Some (number_of_Z 2); max := Some (number_of_Z 50) |}.

(** [gatherUserInput(): [string, string, number] | void]; the first
    component lists the [alert] messages shown. *)
Definition gatherUserInput (f : InputForm)
  : list string * option (string * string * number) :=
  if negb (validate (titleValidatable f)) &&
     negb (validate (descriptionValidatable f)) &&
     negb (validate (peopleValidatable f))
  then (["invalid input"%string], None)
  else ([], Some (titleInputElement f, descriptionInputElement f,
                  ToNumber (peopleInputElement f))).

End Form.

(** ** Drag events and the drop targets *)

(** The drag data store of a [DataTransfer]: one string per format, in
    the order the formats were added. *)
Record DataTransfer : Type := mkDataTransfer {
  items : list (string * string);
  effectAllowed : string
}.

(** [dataTransfer.types] *)
Definition types (dt : DataTransfer) : list string := map fst (items dt).

(** [dataTransfer.getData(format)]: the empty string when the store has
    no data of that format. *)
Definition getData (format : string) (dt : DataTransfer) : string :=
  match find (fun kv => String.eqb (fst kv) format) (items dt) with
  | Some kv => snd kv
  | None => ""%string
  end.

(** [dataTransfer.setData(format, data)]: data of the same format is
    replaced, the new entry goes last. *)
Definition setData (format data : string) (dt : DataTransfer) : DataTransfer :=
  {| items :=
       List.filter (fun kv => negb (String.eqb (fst kv) format)) (items dt)
       ++ [(format, data)];
     effectAllowed := effectAllowed dt |}.

(** A [DragEvent]: [dataTransfer] may be [null]. *)
Record DragEvent : Type := mkDragEvent {
  dataTransfer : option DataTransfer;
  defaultPrevented : bool
}.

(** [ProjectItem.dragStartHandler]; [None] is the [TypeError] of
    [event.dataTransfer!] on [null]. *)
Definition dragStartHandler (project : Project) (event : DragEvent)
  : option DragEvent :=
  match dataTransfer event with
  | Some dt =>
      let dt1 := setData "text/plain" (id project) dt in
      Some {| dataTransfer :=
                Some {| items := items dt1; effectAllowed := "move" |};
              defaultPrevented := defaultPrevented event |}
  | None => None
  end.

(** A [ProjectList]: its [type] and the class list of its [ul]. *)
Record ProjectList : Type := mkProjectList {
  type : ListType;
  classList : list string
}.

(** [classList.add(token)] and [classList.remove(token)] *)
Definition classList_add (token : string) (l : list string) : list string :=
  if existsb (String.eqb token) l then l else l ++ [token].

Definition classList_remove (token : string) (l : list string) : list string :=
  List.filter (fun t => negb (String.eqb t token)) l.

(** [ProjectList.dragOverHandler] *)
Definition dragOverHandler (this : ProjectList) (event : DragEvent)
  : DragEvent * ProjectList :=
  match dataTransfer event with
  | Some dt =>
      match types dt !! 0 with
      | Some t =>
          if String.eqb t "text/plain"
          then ({| dataTransfer := dataTransfer event;
                   defaultPrevented := true |},
                {| type := type this;
                   classList := classList_add "droppable" (classList this) |})
          else (event, this)
      | None => (event, this)
      end
  | None => (event, this)
  end.

(** [this.type === 'active' ? ProjectStatus.Active :
    ProjectStatus.Finished] *)
Definition dropType (t : ListType) : ProjectStatus :=
  match t with active => Active | finished => Finished end.

(** [ProjectList.dropHandler]; [projectState] is the store of the
    world. *)
Definition dropHandler (this : ProjectList) (event : DragEvent) (w : World)
  : Outcome :=
  match dataTransfer event with
  | Some dt =>
      let prjId := getData "text/plain" dt in
      moveProject prjId (dropType (type this)) w
  | None => Thrown w
  end.

(** [ProjectList.dragLeaveHandler] *)
Definition dragLeaveHandler (this : ProjectList) : ProjectList :=
  {| type := type this;
     classList := classList_remove "droppable" (classList this) |}.

(** The browser's side of a drop: while the payload [dt] is over the
    list a [dragover] event is sent to it, and on release the [drop]
    event is sent only if that [dragover] was cancelled with
    [preventDefault()]; otherwise the drop is refused and no handler of
    the list runs. *)
Definition release_over (this : ProjectList) (dt : option DataTransfer)
    (w : World) : Outcome * ProjectList :=
  let '(over, this1) := dragOverHandler this (mkDragEvent dt false) in
  if defaultPrevented over
  then (dropHandler this1 (mkDragEvent dt false) w, this1)
  else (Returned w, this1).

(** ** Sample states

    The board as the program sets it up: the store with the listeners
    of the two lists, the ['active'] one registered first. *)

Definition board : World :=
  addListener (ProjectList_listener 1)
    (addListener (ProjectList_listener 0) new_ProjectState).

Definition three : number := number_of_Z 3.

(** The board after one [addProject], and after two. *)
Definition one_project : World :=
  run [OpAddProject "0.42" "Build API" "Design and implement" three] board.

Definition two_projects : World :=
  run [OpAddProject "0.1" "A" "first project" three;
       OpAddProject "0.2" "B" "second project" three] board.

(** A listener that marks the first project it is shown as finished:
    [items[0].status = ProjectStatus.Finished]. *)
Definition finisher : Listener :=
  {| lname := 2; body := fun _ => [ItemUpdate 0 (set_status Finished)] |}.

(** A listener that empties the array it is given: [items.length = 0]. *)
Definition eraser : Listener :=
  {| lname := 3; body := fun _ => [ArrUpdate (fun _ => [])] |}.

(** A store with one active project, watched by [finisher] and then by
    the listener of a list. *)
Definition meddled : World :=
  addListener (ProjectList_listener 0)
    (addListener finisher
       (run [OpAddProject "0.42" "Build API" "Design and implement" three]
            new_ProjectState)).

(** Drag payloads: one that offers markup before plain text, one with
    markup only, and an empty one. *)
Definition html_first : DataTransfer :=
  {| items := [("text/html", "<b>0.42</b>"); ("text/plain", "0.42")]%string;
     effectAllowed := "move" |}.

Definition html_only : DataTransfer :=
  {| items := [("text/html", "<b>0.42</b>")]%string;
     effectAllowed := "move" |}.

Definition empty_transfer : DataTransfer :=
  {| items := []; effectAllowed := "uninitialized" |}.

(** The payload and the event after [dragStartHandler] of the project
    with identifier ["0.2"]. *)
Definition picked_up_transfer : DataTransfer :=
  {| items := [("text/plain", "0.2")]%string; effectAllowed := "move" |}.

Definition picked_up : DragEvent :=
  {| dataTransfer := Some picked_up_transfer; defaultPrevented := false |}.

(** The two lists of the page. *)
Definition active_list : ProjectList :=
  {| type := active; classList := [] |}.

Definition finished_list : ProjectList :=
  {| type := finished; classList := [] |}.

(** ** The rest of the form: submitting *)

(** [clearInputs()] *)
Definition clearInputs (f : InputForm) : InputForm :=
  {| titleInputElement := ""; descriptionInputElement := "";
     peopleInputElement := "" |}.

(** What a [submit] event leaves behind: whether the event's default
    was prevented, the alerts shown, the form and the store. *)
Record Submitted : Type := mkSubmitted {
  sub_prevented : bool;
  sub_alerts : list string;
  sub_form : InputForm;
  sub_store : Outcome
}.

Section Submit.

Variable Number_toString : number -> string.
Variable ToNumber : string -> number.

(** [submitHandler(event)]; [rnd] is the draw of the [addProject] call,
    if there is one.  When a listener throws, [clearInputs] is not
    reached. *)
Definition submitHandler (rnd : string) (f : InputForm) (w : World)
  : Submitted :=
  let '(alerts, userInput) := gatherUserInput Number_toString ToNumber f in
  match userInput with
  | Some (title, desc, people) =>
      match addProject rnd title desc people w with
      | Returned w' =>
          {| sub_prevented := true; sub_alerts := alerts;
             sub_form := clearInputs f; sub_store := Returned w' |}
      | Thrown w' =>
          {| sub_prevented := true; sub_alerts := alerts;
             sub_form := f; sub_store := Thrown w' |}
      end
  | None =>
      {| sub_prevented := true; sub_alerts := alerts;
         sub_form := f; sub_store := Returned w |}
  end.

End Submit.

(** A string with nothing but white space in it. *)
Fixpoint blank (s : string) : bool :=
  match s with
  | EmptyString => true
  | String c s' => is_white_space c && blank s'
  end.

(** The largest length a JavaScript string can have is [2^53 - 1]. *)
Definition string_length_ok (s : string) : Prop :=
  (Z.of_nat (String.length s) < 2 ^ 53)%Z.

(** ** A drag from a project item to a list *)

(** The gesture as a whole: [dragStartHandler] of the item of
    [project] fills the payload [dt0] the browser starts the drag
    with, and the payload is released over the list [target]. *)
Definition drag_onto (project : Project) (dt0 : DataTransfer)
    (target : ProjectList) (w : World) : option (Outcome * ProjectList) :=
  match dragStartHandler project (mkDragEvent (Some dt0) false) with
  | Some event => Some (release_over target (dataTransfer event) w)
  | None => None
  end.

(** ** More about states and listeners *)

(** The states the program can be in: a new store after any sequence
    of operations. *)
Definition reached (ops : list Op) : World := run ops new_ProjectState.

(** Two projects that differ at most in their status. *)
Definition same_but_status (p p' : Project) : Prop :=
  id p' = id p /\ title p' = title p /\
  description p' = description p /\ numPeople p' = numPeople p.

(** A listener whose first statement throws. *)
Definition throws_at_once (l : Listener) : Prop :=
  forall snap, exists ops, body l snap = Throw :: ops.

Definition thrower : Listener :=
  {| lname := 4; body := fun _ => [Throw] |}.


(** The operations that lead from a new store to [two_projects]. *)
Definition session : list Op :=
  [OpAddListener (ProjectList_listener 0);
   OpAddListener (ProjectList_listener 1);
   OpAddProject "0.1" "A" "first project" three;
   OpAddProject "0.2" "B" "second project" three].

(** The board with a third listener that throws, between the two
    lists. *)
Definition shaky_board : World :=
  addListener (ProjectList_listener 1)
    (addListener thrower
       (addListener (ProjectList_listener 0) new_ProjectState)).

(** A form with nothing entered.  For it neither platform function is
    called; these stand in for them. *)
Definition empty_form : InputForm :=
  {| titleInputElement := ""; descriptionInputElement := "";
     peopleInputElement := "" |}.

Definition unused_Number_toString : number -> string := fun _ => ""%string.

Definition unused_ToNumber : string -> number := fun _ => S754_nan.

(** [shaky_board] after an [addProject]; the call was left by the
    exception of the second listener. *)
Definition shaky_one : World :=
  run [OpAddProject "0.42" "Build API" "Design and implement" three]
      shaky_board.


Definition project_B : Project :=
  mkProject "0.2" "B" "second project" three Active.



(** * Properties *)

(** The three ways through [moveProject]: only the one in which a
    project is found with another status goes on. *)
Ltac moveProject_cases i w r :=
  unfold moveProject;
  destruct (find_project i w) as [r |]; [| done];
  destruct (objs w !! r); [| done];
  case_decide; [| done].

(** ** The heap footprint of listeners *)

Lemma kept_but_refl a w : kept_but a w w.
Proof. repeat split. Qed.

Lemma kept_but_trans a w1 w2 w3 :
  kept_but a w1 w2 -> kept_but a w2 w3 -> kept_but a w1 w3.
Proof.
  intros (L1 & P1 & T1 & A1 & O1 & F1) (L2 & P2 & T2 & A2 & O2 & F2).
  repeat split; try congruence.
  intros b Hb. rewrite F2, F1; auto.
Qed.

Lemma exec_op_kept a op w : kept_but a w (world_of (exec_op a op w)).
Proof.
  destruct op as [f | i f | ]; simpl.
  - repeat split; simpl; auto.
    + apply length_alter.
    + intros b Hb. apply list_lookup_alter_ne. congruence.
  - destruct (contents a w !! i) as [r |]; [| apply kept_but_refl].
    destruct (objs w !! r); [| apply kept_but_refl].
    repeat split; simpl; auto. apply length_alter.
  - apply kept_but_refl.
Qed.

Lemma exec_ops_kept a ops : forall w, kept_but a w (world_of (exec_ops a ops w)).
Proof.
  induction ops as [| op ops IH]; intros w; simpl.
  - apply kept_but_refl.
  - pose proof (exec_op_kept a op w) as H.
    destruct (exec_op a op w) as [w1 | w1]; simpl in *; auto.
    eapply kept_but_trans; eauto.
Qed.

Lemma call_listener_kept l a w :
  let w' := world_of (call_listener l a w) in
  listeners w' = listeners w /\
  projects w' = projects w /\
  trace w' = trace w ++ [mkEvent (lname l) a (contents a w)] /\
  length (arrs w') = length (arrs w) /\
  length (objs w') = length (objs w) /\
  forall b, b <> a -> arrs w' !! b = arrs w !! b.
Proof.
  unfold call_listener. simpl.
  match goal with |- context [exec_ops a ?ops ?w1] =>
    pose proof (exec_ops_kept a ops w1) as H end.
  destruct H as (L & P & T & A & O & F). simpl in *.
  repeat split; auto.
Qed.

Lemma contents_slice_old p w b :
  b < length (arrs w) -> arrs (slice p w).2 !! b = arrs w !! b.
Proof. intros Hb. simpl. by rewrite lookup_app_l. Qed.

Lemma contents_slice_new p w :
  contents (slice p w).1 (slice p w).2 = contents p w.
Proof.
  unfold contents at 1. simpl.
  rewrite lookup_app_r by lia. by rewrite Nat.sub_diag.
Qed.

(** One round of notifications, however it ends. *)
Lemma notify_kept ls : forall w, round_kept w (world_of (notify ls w)).
Proof.
  induction ls as [| l ls IH]; intros w; simpl.
  - repeat split; auto.
  - pose proof (call_listener_kept l (length (arrs w)) (slice (projects w) w).2)
      as (L & P & T & A & O & F).
    simpl in *.
    destruct (call_listener l (length (arrs w)) _) as [w2 | w2] eqn:E;
      simpl in *.
    + destruct (IH w2) as (L' & P' & O' & A' & F').
      rewrite length_app in A. simpl in A.
      repeat split; try congruence; try lia.
      intros b Hb. rewrite F' by lia. rewrite F by lia.
      by rewrite lookup_app_l.
    + rewrite length_app in A. simpl in A.
      repeat split; try congruence; try lia.
      intros b Hb. rewrite F by lia. by rewrite lookup_app_l.
Qed.

Lemma notify_contents ls w :
  projects w < length (arrs w) ->
  contents (projects (world_of (notify ls w))) (world_of (notify ls w))
  = contents (projects w) w.
Proof.
  intros Hp. destruct (notify_kept ls w) as (_ & P & _ & _ & F).
  unfold contents. rewrite P. by rewrite F.
Qed.

(** The invocations of one round: a prefix of the listeners, in
    registration order, each on a new array with the store's
    references; all of them when the round runs to the end. *)
Lemma notify_trace ls : forall w,
  projects w < length (arrs w) ->
  exists k,
    k <= length ls /\
    trace (world_of (notify ls w))
    = trace w ++ notified (take k ls) (length (arrs w))
                          (contents (projects w) w) /\
    (forall w', notify ls w = Returned w' -> k = length ls).
Proof.
  induction ls as [| l ls IH]; intros w Hp; simpl.
  - exists 0. simpl. rewrite app_nil_r. auto.
  - pose proof (call_listener_kept l (length (arrs w)) (slice (projects w) w).2)
      as (L & P & T & A & O & F).
    pose proof (contents_slice_new (projects w) w) as Hnew.
    simpl in *. rewrite Hnew in T.
    rewrite length_app in A. simpl in A.
    destruct (call_listener l (length (arrs w)) _) as [w2 | w2] eqn:E;
      simpl in *.
    + destruct (IH w2) as (k & Hk & Ht & Hr); [lia |].
      exists (S k). split; [lia |]. split.
      * rewrite Ht, T. simpl. rewrite <- app_assoc. simpl.
        replace (length (arrs w2)) with (S (length (arrs w))) by lia.
        replace (contents (projects w2) w2) with (contents (projects w) w);
          [done |].
        unfold contents. rewrite P, F by lia. by rewrite lookup_app_l.
      * intros w' Hw'. f_equal. eauto.
    + exists 1. split; [lia |]. split.
      * rewrite T. by destruct ls.
      * intros w' Hw'. discriminate.
Qed.

Lemma notify_returned_trace ls w w' :
  projects w < length (arrs w) ->
  notify ls w = Returned w' ->
  trace w' = trace w ++ notified ls (length (arrs w)) (contents (projects w) w).
Proof.
  intros Hp Hr. destruct (notify_trace ls w Hp) as (k & Hk & Ht & Hall).
  rewrite Hr in Ht. simpl in Ht. rewrite Ht.
  rewrite (Hall w' Hr). by rewrite firstn_all.
Qed.

(** Listeners that only change their own array never throw and leave
    every project as it is. *)
Lemma exec_ops_array_only a ops : forall w,
  forallb op_is_array ops = true ->
  exists w', exec_ops a ops w = Returned w' /\ objs w' = objs w.
Proof.
  induction ops as [| op ops IH]; intros w Hops; simpl in *.
  - eauto.
  - apply andb_true_iff in Hops as [Hop Hops].
    destruct op; try discriminate. simpl.
    destruct (IH (with_arrs (alter f a (arrs w)) w) Hops) as (w' & E & O).
    eauto.
Qed.

Lemma notify_array_only ls : forall w,
  Forall array_only ls ->
  exists w', notify ls w = Returned w' /\ objs w' = objs w.
Proof.
  induction ls as [| l ls IH]; intros w Hls; simpl.
  - eauto.
  - inversion Hls as [| ? ? Hl Hls']; subst.
    unfold call_listener.
    match goal with |- context [exec_ops ?a ?ops ?w1] =>
      destruct (exec_ops_array_only a ops w1 (Hl _)) as (w2 & E & O);
      rewrite E end.
    simpl in *. destruct (IH w2 Hls') as (w' & E' & O').
    exists w'. split; [done | congruence].
Qed.

(** ** Well-formed states are kept *)

Lemma wf_new_ProjectState : wf new_ProjectState.
Proof. split; simpl; [lia | constructor]. Qed.

Lemma wf_addListener l w : wf w -> wf (addListener l w).
Proof. intros [Hp Hr]. split; auto. Qed.

Lemma wf_notify ls w : wf w -> wf (world_of (notify ls w)).
Proof.
  intros [Hp Hr]. destruct (notify_kept ls w) as (L & P & O & A & F).
  split.
  - rewrite P. lia.
  - rewrite notify_contents by done. by rewrite O.
Qed.

Lemma contents_array_push w r :
  projects w < length (arrs w) ->
  contents (projects w) (array_push (projects w) r w)
  = contents (projects w) w ++ [r].
Proof.
  intros Hp. unfold contents, array_push. simpl.
  rewrite list_lookup_alter_eq.
  destruct (lookup_lt_is_Some_2 (arrs w) (projects w) Hp) as [l Hl].
  rewrite Hl. reflexivity.
Qed.

(** The state in which [addProject] starts the notifications. *)
Lemma addProject_unfold rnd t d n w :
  addProject rnd t d n w
  = updateListeners
      (array_push (projects w) (length (objs w))
         (with_objs (objs w ++ [mkProject rnd t d n Active]) w)).
Proof. reflexivity. Qed.

Lemma contents_pushed p w :
  projects w < length (arrs w) ->
  contents (projects w)
    (array_push (projects w) (length (objs w)) (with_objs (objs w ++ [p]) w))
  = contents (projects w) w ++ [length (objs w)].
Proof.
  intros Hp.
  exact (contents_array_push (with_objs (objs w ++ [p]) w) (length (objs w)) Hp).
Qed.

Lemma wf_pushed p w :
  wf w ->
  wf (array_push (projects w) (length (objs w)) (with_objs (objs w ++ [p]) w)).
Proof.
  intros [Hp Hr]. split.
  - simpl. by rewrite length_alter.
  - pose proof (contents_array_push (with_objs (objs w ++ [p]) w)
                  (length (objs w)) Hp) as E.
    simpl in *. rewrite E. rewrite length_app. simpl.
    apply Forall_app. split.
    + eapply Forall_impl; [exact Hr |]. simpl. intros; lia.
    + repeat constructor. lia.
Qed.

Lemma wf_addProject rnd t d n w :
  wf w -> wf (world_of (addProject rnd t d n w)).
Proof.
  intros Hw. rewrite addProject_unfold. apply wf_notify. by apply wf_pushed.
Qed.

Lemma wf_with_objs os w :
  length os = length (objs w) -> wf w -> wf (with_objs os w).
Proof. intros E [Hp Hr]. split; simpl; auto. by rewrite E. Qed.

Lemma wf_moveProject i s w : wf w -> wf (world_of (moveProject i s w)).
Proof.
  intros Hw. moveProject_cases i w r.
  apply wf_notify, wf_with_objs; [apply length_alter | done].
Qed.

Lemma wf_step op w : wf w -> wf (world_of (step op w)).
Proof.
  destruct op; simpl;
    auto using wf_addListener, wf_addProject, wf_moveProject.
Qed.

Lemma wf_run ops : forall w, wf w -> wf (run ops w).
Proof.
  induction ops as [| op ops IH]; intros w Hw; simpl; auto using wf_step.
Qed.

(** ** Reading the store *)

Lemma deref_app rs1 rs2 w : deref (rs1 ++ rs2) w = deref rs1 w ++ deref rs2 w.
Proof. unfold deref. apply omap_app. Qed.

Lemma deref_ext rs w w' :
  (forall r, r ∈ rs -> objs w' !! r = objs w !! r) ->
  deref rs w' = deref rs w.
Proof.
  unfold deref. induction rs as [| r rs IH]; intros H; csimpl; [done |].
  rewrite H by left. rewrite IH; [done |]. intros r' Hr'. apply H. by right.
Qed.

Lemma deref_length rs w :
  Forall (fun r => r < length (objs w)) rs -> length (deref rs w) = length rs.
Proof.
  unfold deref. induction 1 as [| r rs Hr _ IH]; csimpl; [done |].
  destruct (lookup_lt_is_Some_2 _ _ Hr) as [p Hp]. rewrite Hp. csimpl.
  by rewrite IH.
Qed.

Lemma store_items_length w : wf w -> length (store_items w) = count w.
Proof. intros [_ Hr]. by apply deref_length. Qed.

(** Changing fields other than [id] in place keeps the identifiers. *)
Lemma deref_alter_ids f r rs w :
  (forall p, id (f p) = id p) ->
  map id (deref rs (with_objs (alter f r (objs w)) w)) = map id (deref rs w).
Proof.
  intros Hf. unfold deref. simpl.
  induction rs as [| r' rs IH]; csimpl; [done |].
  destruct (decide (r = r')) as [<- | Hne].
  - rewrite list_lookup_alter_eq. destruct (objs w !! r); csimpl; [| done].
    by rewrite Hf, IH.
  - rewrite list_lookup_alter_ne by done.
    destruct (objs w !! r'); csimpl; [| done]. by rewrite IH.
Qed.


Lemma find_project_None i w :
  find_project i w = None <-> ~ In i (ids w).
Proof.
  unfold find_project, ids, store_items, deref, has_id.
  induction (contents (projects w) w) as [| r rs IH]; csimpl; [tauto |].
  destruct (objs w !! r) as [p |] eqn:E; csimpl.
  - destruct (String.eqb_spec (id p) i) as [-> | Hne].
    + split; [done | tauto].
    + rewrite IH. tauto.
  - exact IH.
Qed.

(** With pairwise distinct identifiers the lookup finds the one
    project that carries the identifier, wherever it stands. *)
Lemma find_in_unique i w : forall rs r p,
  NoDup (map id (deref rs w)) ->
  r ∈ rs -> objs w !! r = Some p -> id p = i ->
  find (has_id i w) rs = Some r.
Proof.
  unfold deref. induction rs as [| r0 rs IH]; intros r p Hnd Hin Hobj Hid.
  - by apply elem_of_nil in Hin.
  - csimpl in *. unfold has_id at 1.
    destruct (objs w !! r0) as [p0 |] eqn:E0; csimpl in *.
    + apply NoDup_cons in Hnd as [Hfresh Hnd].
      destruct (String.eqb_spec (id p0) i) as [Heq | Hne].
      * apply elem_of_cons in Hin as [-> | Hin]; [done |].
        exfalso. apply Hfresh. rewrite Heq, <- Hid.
        apply list_elem_of_fmap_2, list_elem_of_omap. eauto.
      * apply elem_of_cons in Hin as [-> | Hin]; [congruence |]. eauto.
    + apply elem_of_cons in Hin as [-> | Hin]; [congruence |]. eauto.
Qed.

Lemma find_project_unique i w r p :
  NoDup (ids w) ->
  r ∈ contents (projects w) w -> objs w !! r = Some p -> id p = i ->
  find_project i w = Some r.
Proof. intros. by eapply find_in_unique. Qed.

(** ** [addProject] *)

Lemma store_items_pushed p w :
  wf w ->
  store_items
    (array_push (projects w) (length (objs w)) (with_objs (objs w ++ [p]) w))
  = store_items w ++ [p].
Proof.
  intros [Hp Hr]. unfold store_items.
  change (projects (array_push _ _ _)) with (projects w).
  rewrite contents_pushed by done.
  rewrite deref_app. f_equal.
  - apply deref_ext. intros r' Hr'. simpl.
    rewrite Forall_forall in Hr. by apply lookup_app_l, Hr.
  - unfold deref. csimpl.
    rewrite lookup_app_r by lia. by rewrite Nat.sub_diag.
Qed.

(** C2. [addProject] first appends a new project with status [Active]
    at the end of the store's sequence (state [w1]) and then runs the
    notifications on that state.  When the call returns, the trace has
    grown by exactly one invocation per registered listener, in
    registration order, each on an array holding the old references
    followed by the new one, and the store's sequence is the extended
    one.  The call does return when no listener throws, in particular
    when the listeners only change the arrays they are given. *)
Theorem addProject_appends_then_notifies rnd t d n w :
  wf w ->
  let r := length (objs w) in
  let items := contents (projects w) w ++ [r] in
  exists w1,
    objs w1 = objs w ++ [mkProject rnd t d n Active] /\
    contents (projects w1) w1 = items /\
    store_items w1 = store_items w ++ [mkProject rnd t d n Active] /\
    listeners w1 = listeners w /\
    trace w1 = trace w /\
    addProject rnd t d n w = updateListeners w1 /\
    (forall w', addProject rnd t d n w = Returned w' ->
       trace w' = trace w ++ notified (listeners w) (length (arrs w)) items /\
       contents (projects w') w' = items) /\
    (Forall array_only (listeners w) ->
       exists w', addProject rnd t d n w = Returned w').
Proof.
  intros Hw r items. pose proof Hw as [Hp Hr].
  set (p := mkProject rnd t d n Active).
  set (w1 := array_push (projects w) r (with_objs (objs w ++ [p]) w)).
  assert (Hitems : contents (projects w1) w1 = items).
  { exact (contents_array_push (with_objs (objs w ++ [p]) w) r Hp). }
  assert (Hw1 : wf w1) by (by apply wf_pushed).
  exists w1. repeat split; auto.
  - by apply store_items_pushed.
  - rewrite addProject_unfold in H. fold p r w1 in H.
    rewrite (notify_returned_trace _ _ _ (proj1 Hw1) H).
    rewrite Hitems. simpl. by rewrite length_alter.
  - rewrite addProject_unfold in H. fold p r w1 in H.
    pose proof (notify_contents (listeners w1) w1 (proj1 Hw1)) as E.
    unfold updateListeners in H. rewrite H in E. simpl in E.
    by rewrite E.
  - intros Hls. rewrite addProject_unfold. fold p r w1.
    destruct (notify_array_only (listeners w1) w1 Hls) as (w' & E & _).
    eauto.
Qed.

(** ** [moveProject] *)

(** C3. [moveProject] with an identifier that no project of the store
    carries, or with an identifier whose project (the one the lookup
    finds) already has the requested status, returns normally and
    leaves the whole state as it was: the same projects, and a trace
    with no new listener invocation. *)
Theorem moveProject_silent_noop projectId newStatus w :
  ~ In projectId (ids w) \/
  (exists r p, find_project projectId w = Some r /\
               objs w !! r = Some p /\ status p = newStatus) ->
  moveProject projectId newStatus w = Returned w.
Proof.
  unfold moveProject. intros [Habsent | (r & p & Hfind & Hobj & Hst)].
  - apply find_project_None in Habsent. by rewrite Habsent.
  - rewrite Hfind, Hobj. case_decide; [congruence | done].
Qed.

(** C4. When the lookup finds a project whose status differs from the
    requested one, [moveProject] writes the new status into that
    project and then runs the notifications on the resulting state
    [w1].  In [w1] the project has its old [id], [title], [description]
    and [numPeople], every other object is untouched, and the store's
    sequence holds the same references in the same order.  When the
    call returns, every registered listener has been invoked once, in
    registration order, and the store's sequence is still the same. *)
Theorem moveProject_changes_status_only projectId newStatus w r p :
  wf w ->
  find_project projectId w = Some r ->
  objs w !! r = Some p ->
  status p <> newStatus ->
  exists w1,
    moveProject projectId newStatus w = updateListeners w1 /\
    objs w1 !! r = Some (mkProject (id p) (title p) (description p)
                                   (numPeople p) newStatus) /\
    (forall r', r' <> r -> objs w1 !! r' = objs w !! r') /\
    length (objs w1) = length (objs w) /\
    arrs w1 = arrs w /\
    contents (projects w1) w1 = contents (projects w) w /\
    count w1 = count w /\
    listeners w1 = listeners w /\
    trace w1 = trace w /\
    (forall w', moveProject projectId newStatus w = Returned w' ->
       trace w' = trace w ++ notified (listeners w) (length (arrs w))
                                      (contents (projects w) w) /\
       contents (projects w') w' = contents (projects w) w) /\
    (Forall array_only (listeners w) ->
       exists w', moveProject projectId newStatus w = Returned w' /\
                  objs w' = objs w1).
Proof.
  intros [Hp Hr] Hfind Hobj Hst.
  set (w1 := with_objs (alter (set_status newStatus) r (objs w)) w).
  assert (Hmove : moveProject projectId newStatus w = updateListeners w1).
  { unfold moveProject. rewrite Hfind, Hobj. by case_decide. }
  exists w1. split; [exact Hmove |]. repeat split; auto.
  - simpl. rewrite list_lookup_alter_eq, Hobj. reflexivity.
  - intros r' Hne. simpl. by apply list_lookup_alter_ne.
  - simpl. apply length_alter.
  - rewrite Hmove in H.
    by rewrite (notify_returned_trace _ w1 _ Hp H).
  - rewrite Hmove in H.
    pose proof (notify_contents (listeners w1) w1 Hp) as E.
    unfold updateListeners in H. rewrite H in E. exact E.
  - intros Hls. rewrite Hmove. exact (notify_array_only _ w1 Hls).
Qed.

(** ** The number of projects *)

Lemma count_notify ls w :
  projects w < length (arrs w) -> count (world_of (notify ls w)) = count w.
Proof. intros Hp. unfold count. by rewrite notify_contents. Qed.

Lemma count_addProject rnd t d n w :
  wf w -> count (world_of (addProject rnd t d n w)) = S (count w).
Proof.
  intros Hw. rewrite addProject_unfold. unfold updateListeners.
  rewrite count_notify by apply (wf_pushed _ _ Hw).
  unfold count.
  change (projects (array_push _ _ _)) with (projects w).
  rewrite contents_pushed by apply Hw. rewrite length_app. simpl. lia.
Qed.

Lemma count_moveProject i s w :
  wf w -> count (world_of (moveProject i s w)) = count w.
Proof.
  intros [Hp _]. moveProject_cases i w r.
  unfold updateListeners. by rewrite count_notify.
Qed.

Lemma count_run ops : forall w,
  wf w -> count (run ops w) = count w + length (draws ops).
Proof.
  induction ops as [| op ops IH]; intros w Hw; simpl; [lia |].
  rewrite IH by (by apply wf_step).
  destruct op; simpl.
  - reflexivity.
  - rewrite count_addProject by done. lia.
  - by rewrite count_moveProject.
Qed.

(** C10. In a well-formed state, [addProject] makes the store one
    project longer, whether or not a listener throws; [moveProject] and
    [addListener] keep its length; hence no sequence of store
    operations makes it shorter. *)
Theorem store_never_shrinks w :
  wf w ->
  (forall rnd t d n, count (world_of (addProject rnd t d n w)) = S (count w)) /\
  (forall i s, count (world_of (moveProject i s w)) = count w) /\
  (forall l, count (addListener l w) = count w) /\
  (forall ops, count w <= count (run ops w)).
Proof.
  intros Hw. repeat split.
  - intros. by apply count_addProject.
  - intros. by apply count_moveProject.
  - intros ops. rewrite count_run by done. lia.
Qed.

(** ** Snapshots *)

Lemma notified_arrays ls : forall a0 items,
  map ev_array (notified ls a0 items) = seq a0 (length ls).
Proof.
  induction ls as [| l ls IH]; intros a0 items; simpl; [done |].
  by rewrite IH.
Qed.

Lemma notified_items ls : forall a0 items,
  Forall (fun e => ev_items e = items) (notified ls a0 items).
Proof.
  induction ls as [| l ls IH]; intros a0 items; simpl; constructor; auto.
Qed.

Lemma notified_names ls a0 items :
  map ev_listener (notified ls a0 items) = map lname ls.
Proof.
  revert a0. induction ls as [| l ls IH]; intros a0; simpl; [done |].
  by rewrite IH.
Qed.

(** C5, as the code has it.  Each listener is called with an array of
    its own: it is newly allocated (so it is neither the store's array
    nor any other listener's), and it holds the store's references.
    A listener writes to no array but the one it was given, so whatever
    it does to that array, the store's sequence and the arrays of the
    other listeners stay as they are.  The projects in the array are
    the store's own objects; a round in which the listeners only change
    their arrays leaves them unchanged. *)
Theorem snapshot_arrays_are_independent w :
  wf w ->
  let w' := world_of (updateListeners w) in
  (exists evs,
     trace w' = trace w ++ evs /\
     Forall (fun e => ev_items e = contents (projects w) w /\
                      length (arrs w) <= ev_array e /\
                      ev_array e <> projects w) evs /\
     NoDup (map ev_array evs)) /\
  contents (projects w') w' = contents (projects w) w /\
  (forall l a w0 b, b <> a ->
     arrs (world_of (call_listener l a w0)) !! b = arrs w0 !! b) /\
  (Forall array_only (listeners w) -> store_items w' = store_items w).
Proof.
  intros [Hp Hr] w'. repeat split.
  - destruct (notify_trace (listeners w) w Hp) as (k & Hk & Ht & _).
    eexists. split; [exact Ht |]. split.
    + pose proof (notified_items (take k (listeners w)) (length (arrs w))
                    (contents (projects w) w)) as Hi.
      pose proof (notified_arrays (take k (listeners w)) (length (arrs w))
                    (contents (projects w) w)) as Ha.
      apply Forall_forall. intros e He.
      rewrite Forall_forall in Hi. split; [by apply Hi |].
      assert (Hin : ev_array e ∈ seq (length (arrs w))
                                     (length (take k (listeners w)))).
      { rewrite <- Ha. by apply list_elem_of_fmap_2. }
      apply elem_of_seq in Hin. lia.
    + rewrite notified_arrays. apply NoDup_seq.
  - by apply notify_contents.
  - intros l a w0 b Hb.
    by destruct (call_listener_kept l a w0) as (_ & _ & _ & _ & _ & F); apply F.
  - intros Hls. unfold store_items.
    subst w'. unfold updateListeners. rewrite notify_contents by done.
    apply deref_ext. intros r _.
    destruct (notify_array_only (listeners w) w Hls) as (w2 & E & O).
    rewrite E. simpl. by rewrite O.
Qed.

(** C5, as stated, fails: the projects in a listener's array are the
    store's own objects.  In [meddled] the first listener sets the
    status of the project in its array; after the round the store's
    project is finished, and the listener called next was shown the
    changed project. *)
Lemma snapshot_items_are_shared :
  wf meddled /\
  store_items meddled
  = [mkProject "0.42" "Build API" "Design and implement" three Active] /\
  store_items (world_of (updateListeners meddled))
  = [mkProject "0.42" "Build API" "Design and implement" three Finished] /\
  store_items (world_of (updateListeners meddled)) <> store_items meddled.
Proof.
  split; [split; [vm_compute; lia | repeat constructor] |].
  split; [reflexivity |]. split; [reflexivity |]. discriminate.
Qed.

(** Seen from outside: a project just created with status [Active] is
    finished when [addProject] returns, without any [moveProject]. *)
Lemma listener_finishes_created_project :
  store_items
    (run [OpAddListener finisher;
          OpAddProject "0.42" "Build API" "Design and implement" three]
         new_ProjectState)
  = [mkProject "0.42" "Build API" "Design and implement" three Finished].
Proof. reflexivity. Qed.

Lemma snapshot_arrays_are_independent_witness :
  wf (addListener eraser one_project) /\
  contents 0 (world_of (updateListeners (addListener eraser one_project)))
  = [0] /\
  store_items (world_of (updateListeners (addListener eraser one_project)))
  = store_items (addListener eraser one_project).
Proof.
  assert (Hw : wf (addListener eraser one_project)).
  { split; [vm_compute; lia | repeat constructor]. }
  split; [exact Hw |].
  destruct (snapshot_arrays_are_independent _ Hw) as (_ & Hc & _ & Hs).
  split; [exact Hc |]. apply Hs.
  repeat constructor.
Defined.

(** ** The statements at sample states *)

Lemma wf_board : wf board.
Proof. split; [vm_compute; lia | constructor]. Qed.

Lemma wf_one_project : wf one_project.
Proof. apply wf_run, wf_board. Qed.

Lemma wf_two_projects : wf two_projects.
Proof. apply wf_run, wf_board. Qed.

Lemma addProject_appends_then_notifies_witness :
  wf board /\
  exists w',
    addProject "0.42" "Build API" "Design and implement" three board
    = Returned w' /\
    store_items w'
    = [mkProject "0.42" "Build API" "Design and implement" three Active] /\
    trace w' = [mkEvent 0 1 [0]; mkEvent 1 2 [0]].
Proof.
  split; [exact wf_board |].
  destruct (addProject_appends_then_notifies
              "0.42" "Build API" "Design and implement" three board wf_board)
    as (w1 & _ & _ & _ & _ & _ & _ & Hret & Htot).
  destruct Htot as [w' Hw']; [repeat constructor |].
  exists w'. split; [exact Hw' |].
  destruct (Hret w' Hw') as [Ht _].
  split; [| exact Ht].
  vm_compute in Hw'. injection Hw' as <-. reflexivity.
Defined.

Lemma moveProject_silent_noop_witness :
  ~ In "nonexistent-id"%string (ids one_project) /\
  moveProject "nonexistent-id" Finished one_project = Returned one_project /\
  moveProject "0.42" Active one_project = Returned one_project.
Proof.
  assert (H : ~ In "nonexistent-id"%string (ids one_project)).
  { vm_compute. intros [H | []]. discriminate H. }
  split; [exact H |]. split.
  - apply moveProject_silent_noop. left. exact H.
  - apply moveProject_silent_noop. right.
    exists 0, (mkProject "0.42" "Build API" "Design and implement" three Active).
    repeat split.
Defined.

Lemma moveProject_changes_status_only_witness :
  wf two_projects /\
  exists w',
    moveProject "0.2" Finished two_projects = Returned w' /\
    store_items w'
    = [mkProject "0.1" "A" "first project" three Active;
       mkProject "0.2" "B" "second project" three Finished] /\
    trace w' = trace two_projects ++ [mkEvent 0 5 [0; 1]; mkEvent 1 6 [0; 1]].
Proof.
  split; [exact wf_two_projects |].
  destruct (moveProject_changes_status_only
              "0.2" Finished two_projects 1
              (mkProject "0.2" "B" "second project" three Active)
              wf_two_projects eq_refl eq_refl)
    as (w1 & _ & _ & _ & _ & _ & _ & _ & _ & _ & Hret & Htot);
    [discriminate |].
  destruct Htot as (w' & Hw' & _); [repeat constructor |].
  exists w'. split; [exact Hw' |].
  destruct (Hret w' Hw') as [Ht _].
  split; [| exact Ht].
  vm_compute in Hw'. injection Hw' as <-. reflexivity.
Defined.

Lemma store_never_shrinks_witness :
  wf one_project /\
  count one_project = 1 /\
  count (world_of (addProject "0.7" "B" "second project" three one_project))
  = 2 /\
  count (world_of (moveProject "0.42" Finished one_project)) = 1.
Proof.
  split; [exact wf_one_project |]. split; [reflexivity |].
  destruct (store_never_shrinks one_project wf_one_project)
    as (Hadd & Hmove & _ & _).
  split; [apply Hadd | apply Hmove].
Defined.

(** ** Identifiers *)

Lemma listeners_notify ls w :
  listeners (world_of (notify ls w)) = listeners w.
Proof. by destruct (notify_kept ls w) as (L & _). Qed.

Lemma listeners_step op w :
  listeners (world_of (step op w))
  = match op with
    | OpAddListener l => listeners w ++ [l]
    | _ => listeners w
    end.
Proof.
  destruct op as [l | rnd t d n | i s]; simpl.
  - reflexivity.
  - rewrite addProject_unfold. unfold updateListeners.
    by rewrite listeners_notify.
  - moveProject_cases i w r.
    unfold updateListeners. by rewrite listeners_notify.
Qed.

Lemma ids_notify ls w :
  wf w -> Forall array_only ls -> ids (world_of (notify ls w)) = ids w.
Proof.
  intros [Hp _] Hls. unfold ids, store_items.
  rewrite notify_contents by done. f_equal.
  apply deref_ext. intros r _.
  destruct (notify_array_only ls w Hls) as (w' & E & O).
  rewrite E. simpl. by rewrite O.
Qed.

Lemma ids_addProject rnd t d n w :
  wf w -> Forall array_only (listeners w) ->
  ids (world_of (addProject rnd t d n w)) = ids w ++ [rnd].
Proof.
  intros Hw Hls. rewrite addProject_unfold. unfold updateListeners.
  rewrite ids_notify; [| by apply wf_pushed | done].
  unfold ids. rewrite store_items_pushed by done.
  by rewrite map_app.
Qed.

Lemma ids_moveProject i s w :
  wf w -> Forall array_only (listeners w) ->
  ids (world_of (moveProject i s w)) = ids w.
Proof.
  intros Hw Hls. moveProject_cases i w r.
  unfold updateListeners. rewrite ids_notify; [| | done].
  - by apply deref_alter_ids.
  - apply wf_with_objs; [apply length_alter | done].
Qed.

(** With listeners that leave the projects alone, the identifiers in
    the store are the old ones followed by the draws of the
    [addProject] calls, in order: an identifier, once given, stays. *)
Lemma ids_run ops : forall w,
  wf w -> Forall array_only (listeners w) -> registers_array_only ops ->
  ids (run ops w) = ids w ++ draws ops.
Proof.
  induction ops as [| op ops IH]; intros w Hw Hls Hops; simpl.
  - by rewrite app_nil_r.
  - inversion Hops as [| ? ? Hop Hops']; subst.
    rewrite IH; [| by apply wf_step | | done].
    + destruct op as [l | rnd t d n | i s]; simpl.
      * reflexivity.
      * rewrite ids_addProject by done. by rewrite <- app_assoc.
      * by rewrite ids_moveProject.
    + rewrite listeners_step. destruct op; [| done | done].
      apply Forall_app. split; [done |]. by constructor.
Qed.

(** X17. With listeners that leave the projects alone, the store's
    identifiers after any sequence of operations on a new store are
    pairwise distinct exactly when the draws of [Math.random()] in the
    [addProject] calls were. *)
Lemma ids_distinct_iff_draws_distinct ops :
  registers_array_only ops ->
  NoDup (ids (run ops new_ProjectState)) <-> NoDup (draws ops).
Proof.
  intros Hops. rewrite ids_run; [done | apply wf_new_ProjectState | | done].
  constructor.
Qed.

(** Two calls in which [Math.random()] returns the same number give two
    projects with the same identifier. *)
Lemma same_draw_same_id rnd t1 d1 n1 t2 d2 n2 :
  ids (run [OpAddProject rnd t1 d1 n1; OpAddProject rnd t2 d2 n2] board)
  = [rnd; rnd].
Proof. reflexivity. Qed.

(** The earlier variant differs from [addProject] only in where the
    identifier comes from. *)
Lemma AppTs_addProject_eq t d n w :
  AppTs.addProject t d n w = addProject AppTs.Math_random_toString t d n w.
Proof. reflexivity. Qed.

Lemma AppTs_ids_addProject t d n w :
  wf w -> Forall array_only (listeners w) ->
  ids (world_of (AppTs.addProject t d n w))
  = ids w ++ [AppTs.Math_random_toString].
Proof. intros. rewrite AppTs_addProject_eq. by apply ids_addProject. Qed.

(** C1 fails in src/app.ts: every project gets the same identifier,
    the text of [Math.random].  Two calls on the board leave two
    projects whose identifiers are equal. *)
Theorem AppTs_identifiers_collide t1 d1 n1 t2 d2 n2 :
  let w := world_of (AppTs.addProject t2 d2 n2
                       (world_of (AppTs.addProject t1 d1 n1 board))) in
  store_items w
  = [mkProject AppTs.Math_random_toString t1 d1 n1 Active;
     mkProject AppTs.Math_random_toString t2 d2 n2 Active] /\
  ids w = [AppTs.Math_random_toString; AppTs.Math_random_toString] /\
  ~ NoDup (ids w).
Proof.
  split; [reflexivity |]. split; [reflexivity |].
  intros H. apply NoDup_cons in H as [Hin _]. apply Hin. left.
Qed.

(** ** What a list shows *)

(** A list keeps the projects of its own status, in the store's
    order. *)
Lemma relevantProjects_status type prj projects :
  In prj (relevantProjects type projects) <->
  In prj projects /\ status prj = dropType type.
Proof.
  unfold relevantProjects. rewrite filter_In.
  destruct type; simpl; by rewrite bool_decide_eq_true.
Qed.

Lemma relevantProjects_split projects :
  length (relevantProjects active projects)
  + length (relevantProjects finished projects)
  = length projects.
Proof.
  induction projects as [| prj projects IH]; simpl; [done |].
  destruct (status prj); simpl; lia.
Qed.

(** ** The single instance *)

Lemma getInstance_cached i rt :
  Singleton.instance rt = Some i -> Singleton.getInstance rt = (i, rt).
Proof. intros H. unfold Singleton.getInstance. by rewrite H. Qed.

Lemma getInstance_sets_instance rt :
  Singleton.instance (Singleton.getInstance rt).2
  = Some (Singleton.getInstance rt).1.
Proof.
  unfold Singleton.getInstance.
  destruct (Singleton.instance rt) as [i |] eqn:E; simpl; done.
Qed.

Lemma getInstance_n_cached i n : forall rt,
  Singleton.instance rt = Some i ->
  Singleton.getInstance_n n rt = (replicate n i, rt).
Proof.
  induction n as [| n IH]; intros rt H; simpl; [done |].
  rewrite (getInstance_cached i rt H). by rewrite (IH rt H).
Qed.

(** C9. The first [getInstance()] of the program constructs the store
    and keeps it in [instance]; every call returns the instance kept.
    From any state two calls in a row return the same instance and the
    second constructs nothing; from the program start, any number of
    calls return one and the same instance, and at most one
    [ProjectState] has been constructed (exactly one after the first
    call, none before). *)
Theorem getInstance_returns_the_one_instance :
  (forall rt,
     let r1 := Singleton.getInstance rt in
     let r2 := Singleton.getInstance r1.2 in
     r2.1 = r1.1 /\ r2.2 = r1.2 /\
     length (Singleton.constructed r1.2)
     <= S (length (Singleton.constructed rt))) /\
  (forall n,
     let r := Singleton.getInstance_n n Singleton.start in
     r.1 = replicate n 0 /\
     length (Singleton.constructed r.2) = (if n is 0 then 0 else 1) /\
     Singleton.instance r.2 = (if n is 0 then None else Some 0)).
Proof.
  split.
  - intros rt r1 r2.
    pose proof (getInstance_sets_instance rt) as H. fold r1 in H.
    subst r2. rewrite (getInstance_cached _ _ H). simpl.
    split; [done |]. split; [done |].
    subst r1. unfold Singleton.getInstance.
    destruct (Singleton.instance rt); simpl; [lia |].
    rewrite length_app. simpl. lia.
  - intros [| n] r; [done |].
    subst r. simpl.
    rewrite (getInstance_n_cached 0 n); done.
Qed.

(** ** The input form *)

Example trim_examples :
  trim "  a b  " = "a b"%string /\ trim "   " = ""%string /\
  trim " a" = "a"%string.
Proof. repeat split. Qed.

Section FormFacts.

Variable Number_toString : number -> string.
Variable ToNumber : string -> number.

(** The text of the people field is validated as a string, so the
    bounds [min] and [max] are never compared with it. *)
Lemma validate_people f :
  validate Number_toString (peopleValidatable f)
  = negb (Nat.eqb (String.length (trim (peopleInputElement f))) 0).
Proof. reflexivity. Qed.

Lemma validate_title f :
  validate Number_toString (titleValidatable f)
  = negb (Nat.eqb (String.length (trim (titleInputElement f))) 0).
Proof. reflexivity. Qed.

Lemma validate_description f :
  validate Number_toString (descriptionValidatable f)
  = negb (Nat.eqb (String.length (trim (descriptionInputElement f))) 0)
    && num_ge (number_of_nat (String.length (descriptionInputElement f)))
              (number_of_Z 5)
    && num_le (number_of_nat (String.length (descriptionInputElement f)))
              (number_of_Z 500).
Proof. reflexivity. Qed.

(** C6. [gatherUserInput] returns nothing (after the alert) exactly
    when [validate] fails for the title, for the description and for
    the people count; as soon as one of the three passes, it returns
    the two texts and the people count converted to a number. *)
Theorem gatherUserInput_rejects_only_if_all_fail f :
  let title_ok := validate Number_toString (titleValidatable f) in
  let description_ok :=
    validate Number_toString (descriptionValidatable f) in
  let people_ok := validate Number_toString (peopleValidatable f) in
  let entered := (titleInputElement f, descriptionInputElement f,
                  ToNumber (peopleInputElement f)) in
  ((gatherUserInput Number_toString ToNumber f).2 = None <->
     title_ok = false /\ description_ok = false /\ people_ok = false) /\
  gatherUserInput Number_toString ToNumber f
  = (if title_ok || description_ok || people_ok
     then ([], Some entered)
     else (["invalid input"%string], None)).
Proof.
  unfold gatherUserInput.
  destruct (validate _ (titleValidatable f)),
           (validate _ (descriptionValidatable f)),
           (validate _ (peopleValidatable f)); simpl;
    intuition discriminate.
Qed.

(** A form with an empty title and an empty description is accepted
    when the people field holds any text at all, and so is a people
    count outside the bounds. *)
Lemma gatherUserInput_accepts_empty_title :
  gatherUserInput Number_toString ToNumber (mkInputForm "" "" "7")
  = ([], Some (""%string, ""%string, ToNumber "7")).
Proof. reflexivity. Qed.

Lemma gatherUserInput_accepts_any_people_text :
  gatherUserInput Number_toString ToNumber
    (mkInputForm "Build API" "Design and implement" "1000")
  = ([], Some ("Build API"%string, "Design and implement"%string,
               ToNumber "1000")).
Proof. reflexivity. Qed.

Lemma gatherUserInput_rejects_blank_form :
  gatherUserInput Number_toString ToNumber (mkInputForm "" "  " "")
  = (["invalid input"%string], None).
Proof. reflexivity. Qed.

End FormFacts.

(** ** Drop targets *)

Lemma In_classList_add token l : In token (classList_add token l).
Proof.
  unfold classList_add. destruct (existsb (String.eqb token) l) eqn:E.
  - apply existsb_exists in E as (t & Hin & Heq).
    apply String.eqb_eq in Heq. by subst.
  - apply in_or_app. right. by left.
Qed.

Lemma first_type_declared dt t : types dt !! 0 = Some t -> In t (types dt).
Proof. destruct (types dt); simpl; [done |]. intros [= ->]. by left. Qed.

Lemma getData_setData format data dt :
  getData format (setData format data dt) = data.
Proof.
  unfold getData, setData. simpl.
  induction (items dt) as [| [k v] kvs IH]; simpl.
  - by rewrite String.eqb_refl.
  - destruct (String.eqb k format) eqn:E; simpl; [done |].
    by rewrite E.
Qed.

Lemma getData_absent format dt :
  ~ In format (types dt) -> getData format dt = ""%string.
Proof.
  unfold getData, types.
  induction (items dt) as [| [k v] kvs IH]; simpl; [done |].
  intros Hnot. destruct (String.eqb_spec k format) as [-> | Hne].
  - exfalso. apply Hnot. by left.
  - apply IH. intros Hin. apply Hnot. by right.
Qed.

(** Were a payload without [text/plain] data dropped all the same,
    [dropHandler] would ask for the project with the empty identifier. *)
Lemma dropHandler_without_text_plain this dt prevented w :
  ~ In "text/plain"%string (types dt) ->
  dropHandler this (mkDragEvent (Some dt) prevented) w
  = moveProject "" (dropType (type this)) w.
Proof. intros H. unfold dropHandler. simpl. by rewrite getData_absent. Qed.

(** X18. [dragLeaveHandler] takes the mark off, from whatever class
    list, and leaves the type of the list alone. *)
Lemma dragLeaveHandler_clears this :
  ~ In "droppable"%string (classList (dragLeaveHandler this)) /\
  type (dragLeaveHandler this) = type this.
Proof.
  split; [| done]. simpl. unfold classList_remove.
  intros Hin. apply filter_In in Hin as [_ Hne].
  by rewrite String.eqb_refl in Hne.
Qed.

(** C7, as the code has it.  [dragOverHandler] looks at the first
    declared format only.  If it is [text/plain], the handler cancels
    the event and puts [droppable] on the list; in every other case,
    in particular when the payload does not declare [text/plain] at all
    or when the event has no payload, it changes nothing.  A payload
    whose first format is not [text/plain], in particular one that
    does not declare [text/plain], is therefore refused on release:
    [dropHandler] is not run, the store and the trace stay as they
    are. *)
Theorem dragOver_claims_by_first_type this dt prevented w :
  let event := mkDragEvent (Some dt) prevented in
  (~ In "text/plain"%string (types dt) ->
     dragOverHandler this event = (event, this) /\
     release_over this (Some dt) w = (Returned w, this)) /\
  (types dt !! 0 = Some "text/plain"%string ->
     dragOverHandler this event
     = (mkDragEvent (Some dt) true,
        mkProjectList (type this)
                      (classList_add "droppable" (classList this))) /\
     In "droppable"%string (classList_add "droppable" (classList this))) /\
  (types dt !! 0 <> Some "text/plain"%string ->
     dragOverHandler this event = (event, this) /\
     release_over this (Some dt) w = (Returned w, this)) /\
  dragOverHandler this (mkDragEvent None prevented)
  = (mkDragEvent None prevented, this).
Proof.
  intros event.
  assert (Hother : types dt !! 0 <> Some "text/plain"%string ->
                   forall b, dragOverHandler this (mkDragEvent (Some dt) b)
                             = (mkDragEvent (Some dt) b, this)).
  { intros Hne b. unfold dragOverHandler. simpl.
    destruct (types dt !! 0) as [t |]; [| done].
    destruct (String.eqb_spec t "text/plain"); [congruence | done]. }
  split; [| split; [| split]].
  - intros Hnone.
    assert (Hne : types dt !! 0 <> Some "text/plain"%string).
    { intros Hfirst. by apply first_type_declared in Hfirst. }
    split; [by apply Hother |].
    unfold release_over. by rewrite Hother.
  - intros Hfirst. split; [| apply In_classList_add].
    unfold dragOverHandler. simpl. by rewrite Hfirst.
  - intros Hne. split; [by apply Hother |].
    unfold release_over. by rewrite Hother.
  - reflexivity.
Qed.

(** C7, as stated, fails: a payload that declares [text/plain] after
    another format is not claimed. *)
Lemma dragOver_ignores_text_plain_declared_later :
  In "text/plain"%string (types html_first) /\
  dragOverHandler active_list (mkDragEvent (Some html_first) false)
  = (mkDragEvent (Some html_first) false, active_list) /\
  defaultPrevented
    (dragOverHandler active_list (mkDragEvent (Some html_first) false)).1
  = false /\
  ~ In "droppable"%string
      (classList
         (dragOverHandler active_list
            (mkDragEvent (Some html_first) false)).2).
Proof.
  split; [right; by left |]. split; [reflexivity |].
  split; [reflexivity |]. intros [].
Qed.

Lemma dragOver_claims_by_first_type_witness :
  ~ In "text/plain"%string (types html_only) /\
  release_over finished_list (Some html_only) two_projects
  = (Returned two_projects, finished_list).
Proof.
  assert (H : ~ In "text/plain"%string (types html_only)).
  { intros [H | []]. discriminate H. }
  split; [exact H |].
  exact (proj2 (proj1 (dragOver_claims_by_first_type
                         finished_list html_only false two_projects) H)).
Defined.

(** C8. A drop whose event carries a payload makes [dropHandler] read
    the [text/plain] data and hand it to [moveProject] together with
    the status of the list ([Active] for the active list, [Finished]
    for the finished one); the handler does nothing else, so its whole
    effect is that of this one call.  For an event prepared by
    [dragStartHandler] the data is the identifier of the dragged
    project. *)
Theorem dropHandler_requests_one_transition this event dt w :
  dataTransfer event = Some dt ->
  dropHandler this event w
  = moveProject (getData "text/plain" dt) (dropType (type this)) w /\
  dropType active = Active /\
  dropType finished = Finished /\
  (forall project event0,
     dragStartHandler project event0 = Some event ->
     getData "text/plain" dt = id project).
Proof.
  intros Hdt. unfold dropHandler. rewrite Hdt. repeat split.
  intros project event0. unfold dragStartHandler.
  destruct (dataTransfer event0) as [dt0 |]; [| done].
  intros [= <-]. simpl in Hdt. injection Hdt as <-.
  apply (getData_setData "text/plain" (id project) dt0).
Qed.

Lemma dropHandler_requests_one_transition_witness :
  dragStartHandler
    (mkProject "0.2" "B" "second project" three Active)
    (mkDragEvent (Some empty_transfer) false)
  = Some picked_up /\
  dropHandler finished_list picked_up two_projects
  = moveProject "0.2" Finished two_projects.
Proof.
  split; [reflexivity |].
  exact (proj1 (dropHandler_requests_one_transition
                  finished_list picked_up picked_up_transfer two_projects
                  eq_refl)).
Defined.

(** ** Reached states *)

Lemma objs_notify ls w :
  Forall array_only ls -> objs (world_of (notify ls w)) = objs w.
Proof.
  intros Hls. destruct (notify_array_only ls w Hls) as (w' & E & O).
  by rewrite E.
Qed.

Lemma deref_seq_app os1 : forall os2 w,
  objs w = os1 ++ os2 ->
  deref (seq (length os1) (length os2)) w = os2.
Proof.
  unfold deref. intros os2. revert os1.
  induction os2 as [| p os2 IH]; intros os1 w Hw; csimpl; [done |].
  rewrite Hw, lookup_app_r by lia. rewrite Nat.sub_diag. csimpl.
  f_equal. rewrite <- Hw.
  replace (S (length os1)) with (length (os1 ++ [p]))
    by (rewrite length_app; simpl; lia).
  apply IH. by rewrite <- app_assoc.
Qed.

Lemma deref_seq_all w : deref (seq 0 (length (objs w))) w = objs w.
Proof. by apply (deref_seq_app [] (objs w) w). Qed.

(** The store's array lists every project object ever made, once, in
    the order of creation: a step keeps this. *)
Lemma shape_step op w :
  projects w < length (arrs w) ->
  contents (projects w) w = seq 0 (length (objs w)) ->
  projects (world_of (step op w)) < length (arrs (world_of (step op w))) /\
  contents (projects (world_of (step op w))) (world_of (step op w))
  = seq 0 (length (objs (world_of (step op w)))).
Proof.
  intros Hp Hc.
  assert (Hw : wf w).
  { split; [done |]. rewrite Hc. apply Forall_forall. intros r Hr.
    apply elem_of_seq in Hr. lia. }
  split; [apply (wf_step op w Hw) |].
  destruct op as [l | rnd t d n | i s]; simpl.
  - exact Hc.
  - rewrite addProject_unfold. unfold updateListeners.
    set (w1 := array_push _ _ _).
    destruct (notify_kept (listeners w1) w1) as (_ & _ & O & _ & _).
    rewrite notify_contents by apply (wf_pushed _ _ Hw).
    rewrite O. subst w1.
    change (projects (array_push _ _ _)) with (projects w).
    rewrite contents_pushed by done. simpl.
    rewrite Hc, length_app. simpl.
    by rewrite Nat.add_1_r, seq_S.
  - moveProject_cases i w r; try done.
    unfold updateListeners.
    set (w1 := with_objs _ w).
    destruct (notify_kept (listeners w1) w1) as (_ & _ & O & _ & _).
    rewrite notify_contents by done. rewrite O. subst w1. simpl.
    by rewrite length_alter.
Qed.

Lemma shape_run ops : forall w,
  projects w < length (arrs w) ->
  contents (projects w) w = seq 0 (length (objs w)) ->
  contents (projects (run ops w)) (run ops w)
  = seq 0 (length (objs (run ops w))).
Proof.
  induction ops as [| op ops IH]; intros w Hp Hc; simpl; [done |].
  destruct (shape_step op w Hp Hc) as [Hp' Hc']. by apply IH.
Qed.

(** X1. In every state the program reaches, whatever the listeners do,
    the store holds exactly the project objects that were ever
    created, each once and in the order of creation; there are as
    many as there were [addProject] calls. *)
Theorem reached_store_holds_every_project_once ops :
  let w := reached ops in
  contents (projects w) w = seq 0 (length (objs w)) /\
  NoDup (contents (projects w) w) /\
  store_items w = objs w /\
  length (objs w) = length (draws ops).
Proof.
  intros w.
  assert (Hc : contents (projects w) w = seq 0 (length (objs w))).
  { apply shape_run; [simpl; lia | reflexivity]. }
  split; [exact Hc |]. split; [rewrite Hc; apply NoDup_seq |].
  split.
  - unfold store_items. rewrite Hc. apply deref_seq_all.
  - pose proof (count_run ops new_ProjectState wf_new_ProjectState) as Hn.
    fold (reached ops) in Hn. fold w in Hn.
    unfold count in Hn. rewrite Hc, length_seq in Hn. exact Hn.
Qed.

(** ** Old snapshots *)

Lemma notify_new_events ls w :
  projects w < length (arrs w) ->
  exists evs,
    trace (world_of (notify ls w)) = trace w ++ evs /\
    Forall (fun e => ev_items e = contents (projects w) w) evs.
Proof.
  intros Hp. destruct (notify_trace ls w Hp) as (k & _ & Ht & _).
  eexists. split; [exact Ht |]. apply notified_items.
Qed.

Lemma prefix_step op w :
  wf w ->
  Forall (fun e => ev_items e `prefix_of` contents (projects w) w) (trace w) ->
  Forall (fun e => ev_items e `prefix_of`
                     contents (projects (world_of (step op w)))
                              (world_of (step op w)))
         (trace (world_of (step op w))).
Proof.
  intros Hw Hold. pose proof Hw as [Hp _].
  destruct op as [l | rnd t d n | i s]; simpl.
  - exact Hold.
  - rewrite addProject_unfold. unfold updateListeners.
    set (w1 := array_push _ _ _).
    assert (Hp1 : projects w1 < length (arrs w1))
      by apply (wf_pushed _ _ Hw).
    destruct (notify_new_events (listeners w1) w1 Hp1) as (evs & Ht & Hevs).
    rewrite Ht, notify_contents by done.
    assert (Hc1 : contents (projects w1) w1
                  = contents (projects w) w ++ [length (objs w)])
      by exact (contents_pushed _ w Hp).
    apply Forall_app. split.
    + eapply Forall_impl; [exact Hold |]. intros e He. cbv beta in *.
      rewrite Hc1. by apply prefix_app_r.
    + eapply Forall_impl; [exact Hevs |]. intros e He. cbv beta in *.
      by rewrite He.
  - moveProject_cases i w r; try done.
    unfold updateListeners.
    set (w1 := with_objs _ w).
    destruct (notify_new_events (listeners w1) w1 Hp) as (evs & Ht & Hevs).
    rewrite Ht, notify_contents by done.
    apply Forall_app. split; [exact Hold |].
    eapply Forall_impl; [exact Hevs |]. intros e He. cbv beta in *.
    by rewrite He.
Qed.

(** X2. Every array a listener was ever called with holds a prefix of
    the store's present sequence: the store only appends, so what a
    list was shown earlier is still the front of the store. *)
Theorem snapshots_are_prefixes_of_the_store ops e :
  e ∈ trace (reached ops) ->
  ev_items e `prefix_of` contents (projects (reached ops)) (reached ops).
Proof.
  unfold reached. revert e.
  assert (H : forall w, wf w ->
    Forall (fun e => ev_items e `prefix_of` contents (projects w) w) (trace w) ->
    Forall (fun e => ev_items e `prefix_of`
                       contents (projects (run ops w)) (run ops w))
           (trace (run ops w))).
  { induction ops as [| op ops IH]; intros w Hw Hold; simpl; [done |].
    apply IH; [by apply wf_step | by apply prefix_step]. }
  intros e He.
  specialize (H new_ProjectState wf_new_ProjectState (Forall_nil_2 _)).
  rewrite Forall_forall in H. by apply H.
Qed.

(** ** What never changes in a project *)

Lemma same_but_status_refl p : same_but_status p p.
Proof. by repeat split. Qed.

Lemma same_but_status_trans p1 p2 p3 :
  same_but_status p1 p2 -> same_but_status p2 p3 -> same_but_status p1 p3.
Proof.
  intros (I1 & T1 & D1 & N1) (I2 & T2 & D2 & N2).
  repeat split; congruence.
Qed.

Lemma objs_step_kept op w r p :
  wf w -> Forall array_only (listeners w) ->
  objs w !! r = Some p ->
  exists p', objs (world_of (step op w)) !! r = Some p' /\
             same_but_status p p'.
Proof.
  intros Hw Hls Hr.
  destruct op as [l | rnd t d n | i s]; simpl.
  - eauto using same_but_status_refl.
  - rewrite addProject_unfold. unfold updateListeners.
    rewrite objs_notify by done. simpl.
    exists p. split; [by apply lookup_app_l_Some | apply same_but_status_refl].
  - unfold moveProject.
    destruct (find_project i w) as [r0 |];
      [| eauto using same_but_status_refl].
    destruct (objs w !! r0); [| eauto using same_but_status_refl].
    case_decide; [| eauto using same_but_status_refl].
    unfold updateListeners. rewrite objs_notify by done. simpl.
    destruct (decide (r0 = r)) as [-> | Hne].
    + rewrite list_lookup_alter_eq, Hr. simpl.
      eexists. split; [done |]. by repeat split.
    + rewrite list_lookup_alter_ne by done.
      eauto using same_but_status_refl.
Qed.

Lemma array_only_step op w :
  Forall array_only (listeners w) ->
  match op with OpAddListener l => array_only l | _ => True end ->
  Forall array_only (listeners (world_of (step op w))).
Proof.
  intros Hls Hop. rewrite listeners_step. destruct op; [| done | done].
  apply Forall_app. split; [done |]. by constructor.
Qed.

(** X3. With listeners that leave the projects alone, no sequence of
    store operations changes the [id], [title], [description] or
    [numPeople] of a project once it exists; only its [status] can
    differ. *)
Theorem projects_change_in_status_only ops : forall w r p,
  wf w -> Forall array_only (listeners w) -> registers_array_only ops ->
  objs w !! r = Some p ->
  exists p', objs (run ops w) !! r = Some p' /\ same_but_status p p'.
Proof.
  induction ops as [| op ops IH]; intros w r p Hw Hls Hops Hr; simpl.
  - eauto using same_but_status_refl.
  - inversion Hops as [| ? ? Hop Hops']; subst.
    destruct (objs_step_kept op w r p Hw Hls Hr) as (p1 & Hr1 & S1).
    destruct (IH (world_of (step op w)) r p1) as (p' & Hr' & S');
      auto using wf_step, array_only_step.
    eauto using same_but_status_trans.
Qed.

(** ** Moving twice *)

Lemma has_id_alter_status i s r w r' :
  has_id i (with_objs (alter (set_status s) r (objs w)) w) r' = has_id i w r'.
Proof.
  unfold has_id. simpl. destruct (decide (r = r')) as [-> | Hne].
  - rewrite list_lookup_alter_eq. by destruct (objs w !! r').
  - by rewrite list_lookup_alter_ne.
Qed.

Lemma find_project_ext i w w' :
  contents (projects w') w' = contents (projects w) w ->
  (forall r, has_id i w' r = has_id i w r) ->
  find_project i w' = find_project i w.
Proof.
  intros Hc Hid. unfold find_project. rewrite Hc. clear Hc.
  induction (contents (projects w) w) as [| r rs IH]; simpl; [done |].
  by rewrite Hid, IH.
Qed.

(** The state after a move that changes a status, with listeners that
    leave the projects alone. *)
Lemma moveProject_moved i s w r p :
  wf w -> Forall array_only (listeners w) ->
  find_project i w = Some r -> objs w !! r = Some p -> status p <> s ->
  exists w',
    moveProject i s w = Returned w' /\
    objs w' = alter (set_status s) r (objs w) /\
    contents (projects w') w' = contents (projects w) w /\
    listeners w' = listeners w /\
    find_project i w' = Some r /\
    trace w' = trace w ++ notified (listeners w) (length (arrs w))
                                   (contents (projects w) w).
Proof.
  intros [Hp Hr] Hls Hfind Hobj Hst.
  set (w1 := with_objs (alter (set_status s) r (objs w)) w).
  assert (Hmove : moveProject i s w = notify (listeners w1) w1).
  { unfold moveProject. rewrite Hfind, Hobj. by case_decide. }
  destruct (notify_array_only (listeners w1) w1 Hls) as (w' & E & O).
  pose proof (notify_contents (listeners w1) w1 Hp) as Hc.
  pose proof (listeners_notify (listeners w1) w1) as Hl.
  rewrite E in Hc, Hl. simpl in Hc, Hl.
  exists w'. split; [by rewrite Hmove |]. split; [exact O |].
  split; [exact Hc |]. split; [exact Hl |]. split.
  - rewrite <- Hfind. apply find_project_ext; [exact Hc |].
    intros r'. unfold has_id at 1. rewrite O.
    apply (has_id_alter_status i s r w r').
  - exact (notify_returned_trace (listeners w1) w1 w' Hp E).
Qed.




(** ** A listener that throws *)

Lemma bind_assoc o f g : (o >>= f) >>= g = o >>= (fun w => f w >>= g).
Proof. by destruct o. Qed.

Lemma notify_app ls1 ls2 : forall w,
  notify (ls1 ++ ls2) w = notify ls1 w >>= notify ls2.
Proof.
  induction ls1 as [| l ls1 IH]; intros w; simpl; [done |].
  rewrite bind_assoc. destruct (call_listener l _ _); simpl; [apply IH | done].
Qed.

Lemma notified_app ls1 ls2 : forall a its,
  notified (ls1 ++ ls2) a its
  = notified ls1 a its ++ notified ls2 (a + length ls1) its.
Proof.
  induction ls1 as [| l ls1 IH]; intros a its; simpl.
  - by rewrite Nat.add_0_r.
  - rewrite IH. do 3 f_equal. lia.
Qed.

Lemma notify_returned_arrs ls : forall w w',
  notify ls w = Returned w' ->
  length (arrs w') = length (arrs w) + length ls.
Proof.
  induction ls as [| l ls IH]; intros w w' H; simpl in *.
  - injection H as <-. lia.
  - pose proof (call_listener_kept l (length (arrs w)) (slice (projects w) w).2)
      as (_ & _ & _ & A & _ & _).
    simpl in A. rewrite length_app in A. simpl in A.
    destruct (call_listener l (length (arrs w)) _) as [w2 | w2];
      simpl in *; [| done].
    rewrite (IH w2 w' H). lia.
Qed.

Lemma call_listener_throws l a w :
  throws_at_once l ->
  call_listener l a w
  = Thrown (with_trace (trace w ++ [mkEvent (lname l) a (contents a w)]) w).
Proof.
  intros Hl. unfold call_listener.
  match goal with |- context [body l ?snap] =>
    destruct (Hl snap) as [ops ->] end.
  reflexivity.
Qed.

(** A round in which the listener after [ls1] throws at once. *)
Lemma notify_until_throw ls1 l ls2 w :
  projects w < length (arrs w) ->
  Forall array_only ls1 -> throws_at_once l ->
  exists w',
    notify (ls1 ++ l :: ls2) w = Thrown w' /\
    objs w' = objs w /\
    contents (projects w') w' = contents (projects w) w /\
    trace w' = trace w ++ notified (ls1 ++ [l]) (length (arrs w))
                                   (contents (projects w) w).
Proof.
  intros Hp Hls Hl. rewrite notify_app.
  destruct (notify_array_only ls1 w Hls) as (wa & Ea & Oa).
  pose proof (notify_returned_trace ls1 w wa Hp Ea) as Ta.
  pose proof (notify_returned_arrs ls1 w wa Ea) as Aa.
  pose proof (notify_contents ls1 w Hp) as Ca.
  destruct (notify_kept ls1 w) as (_ & Pa & _ & _ & _).
  rewrite Ea in Ca, Pa |- *. simpl in Ca, Pa |- *.
  rewrite call_listener_throws by done. simpl.
  eexists. split; [reflexivity |]. simpl.
  split; [exact Oa |]. split.
  - unfold contents in *. simpl. rewrite lookup_app_l by lia.
    exact Ca.
  - rewrite Ta, notified_app, <- app_assoc. simpl. do 2 f_equal.
    pose proof (contents_slice_new (projects wa) wa) as Hnew.
    simpl in Hnew. rewrite Hnew, Ca, Aa. reflexivity.
Qed.

(** X6. When a listener throws, [addProject] is left by the exception,
    but the new project stays in the store: the listeners registered
    before the throwing one were called, the throwing one was called,
    and those registered after it were not. *)
Theorem addProject_keeps_project_when_listener_throws
    rnd t d n w ls1 l ls2 :
  wf w ->
  listeners w = ls1 ++ l :: ls2 ->
  Forall array_only ls1 -> throws_at_once l ->
  exists w',
    addProject rnd t d n w = Thrown w' /\
    store_items w' = store_items w ++ [mkProject rnd t d n Active] /\
    trace w' = trace w ++ notified (ls1 ++ [l]) (length (arrs w))
                 (contents (projects w) w ++ [length (objs w)]).
Proof.
  intros Hw Hsplit Hls Hl. rewrite addProject_unfold. unfold updateListeners.
  set (p := mkProject rnd t d n Active).
  set (w1 := array_push (projects w) (length (objs w))
               (with_objs (objs w ++ [p]) w)).
  assert (Hw1 : wf w1) by apply (wf_pushed p w Hw).
  change (listeners w1) with (listeners w). rewrite Hsplit.
  destruct (notify_until_throw ls1 l ls2 w1 (proj1 Hw1) Hls Hl)
    as (w' & E & O & C & T).
  exists w'. split; [exact E |]. split.
  - rewrite <- (store_items_pushed p w Hw). fold w1.
    unfold store_items. rewrite C. apply deref_ext. intros r _.
    by rewrite O.
  - rewrite T.
    change (projects w1) with (projects w).
    unfold w1 at 3. rewrite contents_pushed by apply Hw.
    simpl. by rewrite length_alter.
Qed.

(** ** Two projects with one identifier *)



(** ** Comparing numbers that come from lengths *)

Lemma digits_iter_xO p k :
  digits2_pos (Pos.iter xO p k) = (digits2_pos p + k)%positive.
Proof.
  induction k as [| k IH] using Pos.peano_ind.
  - simpl. lia.
  - rewrite Pos.iter_succ. simpl. rewrite IH. lia.
Qed.

Lemma compare_iter_xO p q k :
  Pos.compare_cont Eq (Pos.iter xO p k) (Pos.iter xO q k) = Pos.compare p q.
Proof.
  induction k as [| k IH] using Pos.peano_ind.
  - reflexivity.
  - rewrite !Pos.iter_succ. simpl. exact IH.
Qed.

Lemma digits_bounds p :
  (2 ^ (Z.pos (digits2_pos p) - 1) <= Z.pos p < 2 ^ Z.pos (digits2_pos p))%Z.
Proof.
  induction p as [p IH | p IH |]; simpl digits2_pos; [| | simpl; lia].
  - rewrite Pos2Z.inj_succ. change (Z.pos p~1) with (2 * Z.pos p + 1)%Z.
    replace (Z.succ (Z.pos (digits2_pos p)) - 1)%Z
      with (Z.pos (digits2_pos p)) by lia.
    rewrite Z.pow_succ_r by lia.
    assert (H2 : (2 ^ Z.pos (digits2_pos p)
                  = 2 * 2 ^ (Z.pos (digits2_pos p) - 1))%Z).
    { rewrite <- Z.pow_succ_r by lia. f_equal. lia. }
    lia.
  - rewrite Pos2Z.inj_succ. change (Z.pos p~0) with (2 * Z.pos p)%Z.
    replace (Z.succ (Z.pos (digits2_pos p)) - 1)%Z
      with (Z.pos (digits2_pos p)) by lia.
    rewrite Z.pow_succ_r by lia.
    assert (H2 : (2 ^ Z.pos (digits2_pos p)
                  = 2 * 2 ^ (Z.pos (digits2_pos p) - 1))%Z).
    { rewrite <- Z.pow_succ_r by lia. f_equal. lia. }
    lia.
Qed.

Lemma round_aux_exact m e :
  Z.pos (digits2_pos m) = 53%Z -> (-1074 <= e <= 971)%Z ->
  binary_round_aux 53 1024 false (Z.pos m) e loc_Exact = S754_finite false m e.
Proof.
  intros Hd He.
  assert (Hz : (Z.max (Z.pos (digits2_pos m) + e - 53) (3 - 1024 - 53) - e
                = 0)%Z) by lia.
  unfold binary_round_aux, shr_fexp, fexp, emin.
  cbn [Zdigits2 shr_record_of_loc].
  rewrite Hz.
  cbn [shr shr_m loc_of_shr_record round_nearest_even Zdigits2
       shr_record_of_loc].
  rewrite Hz. cbn [shr shr_m].
  destruct (Z.leb_spec e (1024 - 53)); [reflexivity | lia].
Qed.

Lemma digits_at_most_53 p :
  (Z.pos p < 2 ^ 53)%Z -> (Z.pos (digits2_pos p) <= 53)%Z.
Proof.
  intros Hp. pose proof (digits_bounds p) as [Hlo _].
  destruct (Z.le_gt_cases (Z.pos (digits2_pos p)) 53) as [H | H]; [exact H |].
  exfalso.
  assert (2 ^ 53 <= 2 ^ (Z.pos (digits2_pos p) - 1))%Z
    by (apply Z.pow_le_mono_r; lia).
  lia.
Qed.

Lemma number_of_pos p :
  (Z.pos p < 2 ^ 53)%Z ->
  number_of_Z (Z.pos p)
  = S754_finite false
      (Pos.shiftl p (Z.to_N (53 - Z.pos (digits2_pos p))))
      (Z.pos (digits2_pos p) - 53).
Proof.
  intros Hp. pose proof (digits_at_most_53 p Hp) as Hd.
  unfold number_of_Z, binary_normalize, binary_round, fexp, emin.
  rewrite Z.add_0_r, Z.max_l by lia.
  unfold shl_align. rewrite Z.sub_0_r.
  destruct (Z.pos (digits2_pos p) - 53)%Z as [| k | k] eqn:E; [| lia |].
  - replace (53 - Z.pos (digits2_pos p))%Z with 0%Z by lia.
    change (Pos.shiftl p (Z.to_N 0)) with p.
    apply round_aux_exact; lia.
  - replace (53 - Z.pos (digits2_pos p))%Z with (Z.pos k) by lia.
    change (Pos.shiftl p (Z.to_N (Z.pos k))) with (Pos.iter xO p k).
    apply round_aux_exact; [| lia]. rewrite digits_iter_xO. lia.
Qed.

Lemma compare_shiftl p q n :
  Pos.compare_cont Eq (Pos.shiftl p n) (Pos.shiftl q n) = Pos.compare p q.
Proof. destruct n as [| k]; [reflexivity | apply compare_iter_xO]. Qed.

Lemma compare_number_of_pos p q :
  (Z.pos p < 2 ^ 53)%Z -> (Z.pos q < 2 ^ 53)%Z ->
  SFcompare (number_of_Z (Z.pos p)) (number_of_Z (Z.pos q))
  = Some (Pos.compare p q).
Proof.
  intros Hp Hq. rewrite !number_of_pos by done.
  pose proof (digits_bounds p) as [Lp Up].
  pose proof (digits_bounds q) as [Lq Uq].
  cbn [SFcompare]. f_equal.
  destruct (Z.compare_spec (Z.pos (digits2_pos p) - 53)
                           (Z.pos (digits2_pos q) - 53)) as [E | E | E].
  - replace (Z.pos (digits2_pos q)) with (Z.pos (digits2_pos p)) by lia.
    apply compare_shiftl.
  - symmetry. apply Pos.compare_lt_iff.
    assert (2 ^ Z.pos (digits2_pos p) <= 2 ^ (Z.pos (digits2_pos q) - 1))%Z
      by (apply Z.pow_le_mono_r; lia).
    lia.
  - symmetry. apply Pos.compare_gt_iff.
    assert (2 ^ Z.pos (digits2_pos q) <= 2 ^ (Z.pos (digits2_pos p) - 1))%Z
      by (apply Z.pow_le_mono_r; lia).
    lia.
Qed.

Lemma compare_number_of_Z x y :
  (0 <= x < 2 ^ 53)%Z -> (0 <= y < 2 ^ 53)%Z ->
  SFcompare (number_of_Z x) (number_of_Z y) = Some (Z.compare x y).
Proof.
  intros Hx Hy. destruct x as [| p | p], y as [| q | q]; try lia.
  - reflexivity.
  - rewrite number_of_pos by lia. reflexivity.
  - rewrite number_of_pos by lia. reflexivity.
  - apply compare_number_of_pos; lia.
Qed.

Lemma num_le_of_Z x y :
  (0 <= x < 2 ^ 53)%Z -> (0 <= y < 2 ^ 53)%Z ->
  num_le (number_of_Z x) (number_of_Z y) = (x <=? y)%Z.
Proof.
  intros Hx Hy. unfold num_le, SFleb, Z.leb.
  rewrite compare_number_of_Z by done. by destruct (x ?= y)%Z.
Qed.

Lemma num_ge_of_Z x y :
  (0 <= x < 2 ^ 53)%Z -> (0 <= y < 2 ^ 53)%Z ->
  num_ge (number_of_Z x) (number_of_Z y) = (y <=? x)%Z.
Proof. intros Hx Hy. unfold num_ge. by apply num_le_of_Z. Qed.

(** ** Blank fields *)

Lemma trim_start_blank s : blank s = true -> trim_start s = ""%string.
Proof.
  induction s as [| c s IH]; simpl; [done |].
  intros H. apply andb_true_iff in H as [Hc Hs]. rewrite Hc. by apply IH.
Qed.

Lemma trim_start_not_blank s :
  blank s = false ->
  exists c t, trim_start s = String c t /\ is_white_space c = false.
Proof.
  induction s as [| c s IH]; simpl; [done |].
  destruct (is_white_space c) eqn:Hc; simpl; [exact IH |]. eauto.
Qed.

Lemma trim_end_keeps_start c t :
  is_white_space c = false -> trim_end (String c t) <> ""%string.
Proof. intros Hc. simpl. rewrite Hc. by destruct (trim_end t). Qed.

Lemma trim_empty_iff_blank s :
  Nat.eqb (String.length (trim s)) 0 = blank s.
Proof.
  unfold trim. destruct (blank s) eqn:Hb.
  - by rewrite trim_start_blank.
  - destruct (trim_start_not_blank s Hb) as (c & t & -> & Hc).
    pose proof (trim_end_keeps_start c t Hc) as Hne.
    by destruct (trim_end (String c t)).
Qed.

Section FormRules.

Variable Number_toString : number -> string.
Variable ToNumber : string -> number.

Lemma validate_title_blank f :
  validate Number_toString (titleValidatable f)
  = negb (blank (titleInputElement f)).
Proof. by rewrite validate_title, trim_empty_iff_blank. Qed.

Lemma validate_people_blank f :
  validate Number_toString (peopleValidatable f)
  = negb (blank (peopleInputElement f)).
Proof. by rewrite validate_people, trim_empty_iff_blank. Qed.

Lemma validate_description_bounds f :
  string_length_ok (descriptionInputElement f) ->
  validate Number_toString (descriptionValidatable f)
  = negb (blank (descriptionInputElement f))
    && Nat.leb 5 (String.length (descriptionInputElement f))
    && Nat.leb (String.length (descriptionInputElement f)) 500.
Proof.
  unfold string_length_ok. intros Hlen. rewrite validate_description.
  rewrite trim_empty_iff_blank. unfold number_of_nat.
  rewrite num_ge_of_Z, num_le_of_Z by lia.
  set (n := String.length (descriptionInputElement f)) in *.
  f_equal; [f_equal |].
  - destruct (Z.leb_spec 5 (Z.of_nat n)), (Nat.leb_spec 5 n); lia || done.
  - destruct (Z.leb_spec (Z.of_nat n) 500), (Nat.leb_spec n 500);
      lia || done.
Qed.

(** X8. In terms of the texts entered: the form is turned down exactly
    when the title is blank, the people field is blank, and the
    description is blank or shorter than 5 or longer than 500 code
    units.  The number in the people field plays no part: no bound is
    checked on it. *)
Theorem form_is_rejected_iff f :
  string_length_ok (descriptionInputElement f) ->
  (gatherUserInput Number_toString ToNumber f).2 = None <->
  blank (titleInputElement f) = true /\
  blank (peopleInputElement f) = true /\
  (blank (descriptionInputElement f) = true \/
   String.length (descriptionInputElement f) < 5 \/
   500 < String.length (descriptionInputElement f)).
Proof.
  intros Hlen. unfold gatherUserInput.
  rewrite validate_title_blank, validate_people_blank,
    (validate_description_bounds f Hlen).
  rewrite <- !Nat.leb_gt.
  destruct (blank (titleInputElement f)),
           (blank (peopleInputElement f)),
           (blank (descriptionInputElement f)),
           (Nat.leb 5 (String.length (descriptionInputElement f))),
           (Nat.leb (String.length (descriptionInputElement f)) 500);
    simpl; intuition discriminate.
Qed.

(** X9. A submit event never runs its default action.  When all three
    checks fail it shows the alert and leaves the store and the form
    alone.  Otherwise it calls [addProject] with the texts entered and
    the people count converted to a number, which makes the store one
    project longer; the fields are cleared exactly when that call
    returns, and stay filled when a listener throws. *)
Theorem submit_adds_one_project_or_none rnd f w :
  wf w ->
  let r := submitHandler Number_toString ToNumber rnd f w in
  let accepted :=
    validate Number_toString (titleValidatable f)
    || validate Number_toString (descriptionValidatable f)
    || validate Number_toString (peopleValidatable f) in
  sub_prevented r = true /\
  (accepted = false ->
     sub_store r = Returned w /\ sub_form r = f /\
     sub_alerts r = ["invalid input"%string]) /\
  (accepted = true ->
     sub_store r
     = addProject rnd (titleInputElement f) (descriptionInputElement f)
                  (ToNumber (peopleInputElement f)) w /\
     count (world_of (sub_store r)) = S (count w) /\
     sub_alerts r = [] /\
     sub_form r = match sub_store r with
                  | Returned _ => clearInputs f
                  | Thrown _ => f
                  end).
Proof.
  intros Hw r accepted. subst r accepted.
  unfold submitHandler, gatherUserInput.
  destruct (validate _ (titleValidatable f)),
           (validate _ (descriptionValidatable f)),
           (validate _ (peopleValidatable f)); simpl;
    try (pose proof (count_addProject rnd (titleInputElement f)
                       (descriptionInputElement f)
                       (ToNumber (peopleInputElement f)) w Hw) as Hc;
         destruct (addProject rnd _ _ _ w); simpl in *;
         by repeat split);
    by repeat split.
Qed.

End FormRules.

(** ** The two lists together *)


(** ** Hovering *)

Lemma classList_add_twice token l :
  classList_add token (classList_add token l) = classList_add token l.
Proof.
  unfold classList_add at 1.
  assert (H : existsb (String.eqb token) (classList_add token l) = true).
  { apply existsb_exists. exists token.
    split; [apply In_classList_add | apply String.eqb_refl]. }
  by rewrite H.
Qed.

Lemma classList_remove_absent token l :
  ~ In token l -> classList_remove token l = l.
Proof.
  unfold classList_remove. induction l as [| t l IH]; simpl; [done |].
  intros Hnot. destruct (String.eqb_spec t token) as [-> | Hne]; simpl.
  - exfalso. apply Hnot. by left.
  - f_equal. apply IH. intros Hin. apply Hnot. by right.
Qed.

Lemma classList_remove_added token l :
  ~ In token l -> classList_remove token (classList_add token l) = l.
Proof.
  intros Hnot. unfold classList_add.
  destruct (existsb (String.eqb token) l) eqn:E.
  - apply existsb_exists in E as (t & Hin & Heq).
    apply String.eqb_eq in Heq. by subst.
  - unfold classList_remove. rewrite List.filter_app. simpl.
    rewrite String.eqb_refl. simpl. rewrite app_nil_r.
    by apply classList_remove_absent.
Qed.

(** X11. [dragover] events come many times while the payload is over
    the list; a further event of the same kind changes nothing more:
    [dragOverHandler] on the list it left gives the same result, so
    the mark is put on the list once. *)
Theorem dragOver_again_changes_nothing this event :
  dragOverHandler (dragOverHandler this event).2 event
  = dragOverHandler this event.
Proof.
  unfold dragOverHandler.
  destruct (dataTransfer event) as [dt |]; [| reflexivity].
  destruct (types dt !! 0) as [t |]; [| reflexivity].
  destruct (String.eqb t "text/plain"); [| reflexivity].
  simpl. by rewrite classList_add_twice.
Qed.

(** X12. Leaving undoes hovering: on a list that does not carry the
    mark, [dragOverHandler] followed by [dragLeaveHandler] gives the
    list back as it was, whether or not the payload was claimed. *)
Theorem dragLeave_undoes_dragOver this event :
  ~ In "droppable"%string (classList this) ->
  dragLeaveHandler (dragOverHandler this event).2 = this.
Proof.
  intros Hnot. destruct this as [ty cl]. simpl in Hnot.
  assert (Hsame : dragLeaveHandler (mkProjectList ty cl)
                  = mkProjectList ty cl).
  { unfold dragLeaveHandler. simpl. by rewrite classList_remove_absent. }
  unfold dragOverHandler.
  destruct (dataTransfer event) as [dt |]; [| exact Hsame].
  destruct (types dt !! 0) as [t |]; [| exact Hsame].
  destruct (String.eqb t "text/plain"); [| exact Hsame].
  unfold dragLeaveHandler. simpl. by rewrite classList_remove_added.
Qed.

(** ** From an item to a list *)

Lemma types_setData format data dt :
  types (setData format data dt)
  = List.filter (fun t => negb (String.eqb t format)) (types dt) ++ [format].
Proof.
  unfold types, setData. simpl. rewrite map_app. simpl. f_equal.
  induction (items dt) as [| [k v] kvs IH]; simpl; [done |].
  destruct (String.eqb k format); simpl; by rewrite IH.
Qed.

Lemma first_type_after_setData format dt data :
  types (setData format data dt) !! 0 = Some format <->
  Forall (fun t => t = format) (types dt).
Proof.
  rewrite types_setData.
  induction (types dt) as [| t ts IH]; simpl.
  - split; [constructor | done].
  - destruct (String.eqb_spec t format) as [-> | Hne]; simpl.
    + rewrite IH. split; [by constructor | by inversion 1].
    + split; [by intros [= ->] | by inversion 1].
Qed.



Lemma release_over_claimed this dt w :
  types dt !! 0 = Some "text/plain"%string ->
  release_over this (Some dt) w
  = (moveProject (getData "text/plain" dt) (dropType (type this)) w,
     mkProjectList (type this) (classList_add "droppable" (classList this))).
Proof.
  intros Hfirst. unfold release_over, dragOverHandler. cbn [dataTransfer].
  rewrite Hfirst. reflexivity.
Qed.

Lemma drag_onto_unfold project dt0 target w :
  Forall (fun t => t = "text/plain"%string) (types dt0) ->
  drag_onto project dt0 target w
  = Some (moveProject (id project) (dropType (type target)) w,
          mkProjectList (type target)
                        (classList_add "droppable" (classList target))).
Proof.
  intros Hdt0. unfold drag_onto, dragStartHandler. cbn [dataTransfer].
  rewrite release_over_claimed.
  - do 3 f_equal.
    apply (getData_setData "text/plain" (id project) dt0).
  - by apply (first_type_after_setData "text/plain" dt0 (id project)).
Qed.

Lemma same_id_same_project (l : list Project) p q :
  NoDup (map id l) -> In p l -> In q l -> id p = id q -> p = q.
Proof.
  induction l as [| x l IH]; simpl; [done |].
  intros Hnd Hp Hq Hid. apply NoDup_cons in Hnd as [Hx Hnd].
  destruct Hp as [-> | Hp], Hq as [-> | Hq]; auto.
  - exfalso. apply Hx. rewrite Hid.
    apply list_elem_of_In. by apply in_map.
  - exfalso. apply Hx. rewrite <- Hid.
    apply list_elem_of_In. by apply in_map.
Qed.

(** X14. Dragging a project of the store onto the list of the other
    status moves that project and no other: the gesture ends in one
    [moveProject] that returns, the project has the list's status
    afterwards and is among the projects that list keeps, every
    project that carries its identifier has that status, and the
    store's sequence is unchanged.  The list keeps the mark it got
    while the payload was over it. *)
Theorem drag_onto_other_list_moves_the_project project dt0 target w r :
  wf w -> Forall array_only (listeners w) -> NoDup (ids w) ->
  r ∈ contents (projects w) w -> objs w !! r = Some project ->
  Forall (fun t => t = "text/plain"%string) (types dt0) ->
  status project <> dropType (type target) ->
  exists w',
    drag_onto project dt0 target w
    = Some (Returned w',
            mkProjectList (type target)
                          (classList_add "droppable" (classList target))) /\
    objs w' = alter (set_status (dropType (type target))) r (objs w) /\
    contents (projects w') w' = contents (projects w) w /\
    In (set_status (dropType (type target)) project)
       (relevantProjects (type target) (store_items w')) /\
    (forall q, In q (store_items w') -> id q = id project ->
               status q = dropType (type target)).
Proof.
  intros Hw Hls Hnd Hin Hobj Hdt0 Hst.
  set (s := dropType (type target)) in *.
  assert (Hfind : find_project (id project) w = Some r)
    by (by eapply find_project_unique).
  destruct (moveProject_moved (id project) s w r project
              Hw Hls Hfind Hobj Hst) as (w' & E & O & C & _ & _ & _).
  assert (Hmoved : In (set_status s project) (store_items w')).
  { apply list_elem_of_In. unfold store_items, deref.
    apply list_elem_of_omap. exists r. split; [by rewrite C |].
    by rewrite O, list_lookup_alter_eq, Hobj. }
  exists w'. split.
  { rewrite drag_onto_unfold by done. fold s. by rewrite E. }
  split; [exact O |]. split; [exact C |]. split.
  - apply relevantProjects_status. split; [exact Hmoved | done].
  - intros q Hq Hid.
    assert (Hids : ids w' = ids w).
    { pose proof (ids_moveProject (id project) s w Hw Hls) as H.
      by rewrite E in H. }
    assert (q = set_status s project) as ->; [| done].
    apply (same_id_same_project (store_items w')); auto.
    fold (ids w'). by rewrite Hids.
Qed.

(** X15. Dropping a project onto the list it is already in changes
    nothing in the store and tells no listener; only the list keeps
    its mark. *)
Theorem drag_onto_own_list_changes_nothing project dt0 target w r :
  NoDup (ids w) ->
  r ∈ contents (projects w) w -> objs w !! r = Some project ->
  Forall (fun t => t = "text/plain"%string) (types dt0) ->
  status project = dropType (type target) ->
  drag_onto project dt0 target w
  = Some (Returned w,
          mkProjectList (type target)
                        (classList_add "droppable" (classList target))).
Proof.
  intros Hnd Hin Hobj Hdt0 Hst. rewrite drag_onto_unfold by done.
  assert (Hfind : find_project (id project) w = Some r)
    by (by eapply find_project_unique).
  unfold moveProject. rewrite Hfind, Hobj.
  case_decide; [done | done].
Qed.

(** X16. When a listener throws, [moveProject] is left by the
    exception, but the status it wrote stays: the change is not taken
    back, and the listeners registered after the throwing one are not
    told about it. *)
Theorem moveProject_keeps_status_when_listener_throws
    i s w r p ls1 l ls2 :
  wf w ->
  find_project i w = Some r -> objs w !! r = Some p -> status p <> s ->
  listeners w = ls1 ++ l :: ls2 ->
  Forall array_only ls1 -> throws_at_once l ->
  exists w',
    moveProject i s w = Thrown w' /\
    objs w' = alter (set_status s) r (objs w) /\
    objs w' !! r = Some (set_status s p) /\
    trace w' = trace w ++ notified (ls1 ++ [l]) (length (arrs w))
                                   (contents (projects w) w).
Proof.
  intros [Hp _] Hfind Hobj Hst Hsplit Hls Hl.
  set (w1 := with_objs (alter (set_status s) r (objs w)) w).
  assert (Hmove : moveProject i s w = notify (listeners w1) w1).
  { unfold moveProject. rewrite Hfind, Hobj. by case_decide. }
  change (listeners w1) with (listeners w) in Hmove. rewrite Hsplit in Hmove.
  destruct (notify_until_throw ls1 l ls2 w1 Hp Hls Hl)
    as (w' & E & O & _ & T).
  exists w'. split; [by rewrite Hmove |]. split; [exact O |].
  split; [| exact T].
  rewrite O. simpl. by rewrite list_lookup_alter_eq, Hobj.
Qed.

(** ** The further statements at sample states *)

Lemma array_only_board : Forall array_only (listeners two_projects).
Proof. repeat constructor. Qed.

Lemma throws_at_once_thrower : throws_at_once thrower.
Proof. intros snap. by exists []. Qed.

Lemma wf_shaky_board : wf shaky_board.
Proof. split; [vm_compute; lia | constructor]. Qed.

Lemma NoDup_ids_two_projects : NoDup (ids two_projects).
Proof.
  change (ids two_projects) with ["0.1"%string; "0.2"%string].
  apply NoDup_cons. split; [| apply NoDup_singleton].
  intros H. apply list_elem_of_singleton in H. discriminate H.
Qed.

Lemma snapshots_are_prefixes_of_the_store_witness :
  mkEvent 0 1 [0] ∈ trace (reached session) /\
  [0] `prefix_of` contents (projects (reached session)) (reached session).
Proof.
  assert (H : mkEvent 0 1 [0] ∈ trace (reached session)).
  { apply list_elem_of_In. simpl. by left. }
  split; [exact H |].
  exact (snapshots_are_prefixes_of_the_store session _ H).
Defined.

Lemma projects_change_in_status_only_witness :
  wf two_projects /\
  exists p',
    objs (run [OpMoveProject "0.2" Finished] two_projects) !! 1 = Some p' /\
    same_but_status project_B p'.
Proof.
  split; [exact wf_two_projects |].
  apply (projects_change_in_status_only
           [OpMoveProject "0.2" Finished] two_projects 1 project_B).
  - exact wf_two_projects.
  - exact array_only_board.
  - repeat constructor.
  - reflexivity.
Defined.



Lemma addProject_keeps_project_when_listener_throws_witness :
  wf shaky_board /\
  exists w',
    addProject "0.42" "Build API" "Design and implement" three shaky_board
    = Thrown w' /\
    store_items w'
    = [mkProject "0.42" "Build API" "Design and implement" three Active] /\
    trace w' = [mkEvent 0 1 [0]; mkEvent 4 2 [0]].
Proof.
  split; [exact wf_shaky_board |].
  destruct (addProject_keeps_project_when_listener_throws
              "0.42" "Build API" "Design and implement" three shaky_board
              [ProjectList_listener 0] thrower [ProjectList_listener 1]
              wf_shaky_board eq_refl)
    as (w' & E & Hs & Ht);
    [repeat constructor | exact throws_at_once_thrower |].
  exists w'. split; [exact E |]. split; [exact Hs | exact Ht].
Defined.


Lemma form_is_rejected_iff_witness :
  string_length_ok (descriptionInputElement empty_form) /\
  (gatherUserInput unused_Number_toString unused_ToNumber empty_form).2
  = None.
Proof.
  assert (H : string_length_ok (descriptionInputElement empty_form))
    by reflexivity.
  split; [exact H |].
  apply (form_is_rejected_iff unused_Number_toString unused_ToNumber
           empty_form H).
  split; [reflexivity |]. split; [reflexivity |]. by left.
Defined.

Lemma submit_adds_one_project_or_none_witness :
  wf board /\
  sub_store (submitHandler unused_Number_toString unused_ToNumber
               "0.3" empty_form board)
  = Returned board.
Proof.
  split; [exact wf_board |].
  destruct (submit_adds_one_project_or_none
              unused_Number_toString unused_ToNumber "0.3" empty_form board
              wf_board) as (_ & Hrejected & _).
  apply Hrejected. reflexivity.
Defined.

Lemma dragLeave_undoes_dragOver_witness :
  ~ In "droppable"%string (classList active_list) /\
  dragLeaveHandler (dragOverHandler active_list picked_up).2 = active_list.
Proof.
  assert (H : ~ In "droppable"%string (classList active_list))
    by (intros []).
  split; [exact H |].
  exact (dragLeave_undoes_dragOver active_list picked_up H).
Defined.


Lemma drag_onto_other_list_moves_the_project_witness :
  wf two_projects /\
  exists w',
    drag_onto project_B empty_transfer finished_list two_projects
    = Some (Returned w', mkProjectList finished ["droppable"%string]) /\
    In (set_status Finished project_B)
       (relevantProjects finished (store_items w')).
Proof.
  split; [exact wf_two_projects |].
  destruct (drag_onto_other_list_moves_the_project
              project_B empty_transfer finished_list two_projects 1
              wf_two_projects array_only_board NoDup_ids_two_projects)
    as (w' & E & _ & _ & Hin & _).
  - apply list_elem_of_In. simpl. right. by left.
  - reflexivity.
  - constructor.
  - discriminate.
  - exists w'. split; [exact E | exact Hin].
Defined.

Lemma drag_onto_own_list_changes_nothing_witness :
  NoDup (ids two_projects) /\
  drag_onto project_B empty_transfer active_list two_projects
  = Some (Returned two_projects, mkProjectList active ["droppable"%string]).
Proof.
  split; [exact NoDup_ids_two_projects |].
  apply (drag_onto_own_list_changes_nothing
           project_B empty_transfer active_list two_projects 1
           NoDup_ids_two_projects).
  - apply list_elem_of_In. simpl. right. by left.
  - reflexivity.
  - constructor.
  - reflexivity.
Defined.

Lemma moveProject_keeps_status_when_listener_throws_witness :
  wf shaky_one /\
  exists w',
    moveProject "0.42" Finished shaky_one = Thrown w' /\
    objs w' !! 0
    = Some (mkProject "0.42" "Build API" "Design and implement" three
                      Finished).
Proof.
  assert (Hw : wf shaky_one) by apply wf_run, wf_shaky_board.
  split; [exact Hw |].
  destruct (moveProject_keeps_status_when_listener_throws
              "0.42" Finished shaky_one 0
              (mkProject "0.42" "Build API" "Design and implement" three
                         Active)
              [ProjectList_listener 0] thrower [ProjectList_listener 1]
              Hw eq_refl eq_refl)
    as (w' & E & _ & Hr & _);
    [discriminate | reflexivity | repeat constructor
     | exact throws_at_once_thrower |].
  exists w'. split; [exact E | exact Hr].
Defined.

Lemma ids_distinct_iff_draws_distinct_witness :
  registers_array_only session /\ NoDup (ids (run session new_ProjectState)).
Proof.
  assert (H : registers_array_only session) by repeat constructor.
  split; [exact H |].
  apply (ids_distinct_iff_draws_distinct session H).
  exact NoDup_ids_two_projects.
Defined.
